(** * ChecklistApp: a shallow embedding of [src/checklist/src/ChecklistApp.tsx]

    The component keeps one ordered list of items in React state and
    changes it through event handlers.  Each handler is embedded as a
    function on the component state; the random id source and the
    [JSON] built-ins are the two things the handlers take from their
    environment. *)

From Stdlib Require Import List String Ascii ZArith Bool Arith Lia DecimalString.
From Stdlib Require Import Permutation FinFun.
Import ListNotations.
Open Scope string_scope.

Set Warnings "-register-all".

(** ** Values of the host language

    What [JSON.parse] can return.  Numbers are kept as integers: the
    component only ever tests a number for truthiness.  An object is the
    list of its members in source order; a later member with the same key
    overrides an earlier one. *)
Inductive JValue : Type :=
| JNull
| JBool (b : bool)
| JNum (n : Z)
| JStr (s : string)
| JArr (elems : list JValue)
| JObj (members : list (string * JValue)).

Module JS.

(** [x.k]: [None] stands for [undefined].  Only objects have the members
    this program asks for ([id], [text], [completed]); on every other
    value the lookup gives [undefined]. *)
Fixpoint lookup (k : string) (members : list (string * JValue)) : option JValue :=
  match members with
  | [] => None
  | (k', v) :: rest =>
      match lookup k rest with
      | Some w => Some w
      | None => if String.eqb k' k then Some v else None
      end
  end.

Definition prop (k : string) (x : JValue) : option JValue :=
  match x with
  | JObj members => lookup k members
  | _ => None
  end.

(** Truthiness of a value, as [!!v], [v || w] and [if (v)] see it. *)
Definition truthy (v : JValue) : bool :=
  match v with
  | JNull => false
  | JBool b => b
  | JNum n => negb (Z.eqb n 0)
  | JStr s => negb (String.eqb s EmptyString)
  | JArr _ => true
  | JObj _ => true
  end.

Definition truthy_opt (v : option JValue) : bool :=
  match v with
  | Some w => truthy w
  | None => false
  end.

(** [typeof v === "string"] *)
Definition is_string (v : option JValue) : bool :=
  match v with
  | Some (JStr _) => true
  | _ => false
  end.

(** [Array.isArray(v)] *)
Definition isArray (v : JValue) : bool :=
  match v with
  | JArr _ => true
  | _ => false
  end.

(** [v === s] for a string [s]: strict equality never converts. *)
Definition strict_eq_string (v : JValue) (s : string) : bool :=
  match v with
  | JStr t => String.eqb t s
  | _ => false
  end.

(** White space and line terminators below code unit 256, the ones
    [String.prototype.trim] strips: TAB, LF, VT, FF, CR, SP, NBSP. *)
Definition is_space (c : ascii) : bool :=
  let n := nat_of_ascii c in
  (Nat.leb 9 n && Nat.leb n 13) || Nat.eqb n 32 || Nat.eqb n 160.

Fixpoint trimStart (s : string) : string :=
  match s with
  | EmptyString => EmptyString
  | String c r => if is_space c then trimStart r else s
  end.

Fixpoint trimEnd (s : string) : string :=
  match s with
  | EmptyString => EmptyString
  | String c r =>
      match trimEnd r with
      | EmptyString => if is_space c then EmptyString else String c EmptyString
      | r' => String c r'
      end
  end.

Definition trim (s : string) : string := trimEnd (trimStart s).

Definition is_lf (c : ascii) : bool := Nat.eqb (nat_of_ascii c) 10.
Definition is_cr (c : ascii) : bool := Nat.eqb (nat_of_ascii c) 13.

Definition push_front (c : ascii) (segs : list string) : list string :=
  match segs with
  | [] => [String c EmptyString]
  | h :: t => String c h :: t
  end.

(** [s.split(/\r?\n/)]: a separator is a line feed, together with the
    carriage return right before it when there is one. *)
Fixpoint split_lines (s : string) : list string :=
  match s with
  | EmptyString => [EmptyString]
  | String c r =>
      if is_lf c then EmptyString :: split_lines r
      else
        match r with
        | String d r' =>
            if is_cr c && is_lf d then EmptyString :: split_lines r'
            else push_front c (split_lines r)
        | EmptyString => push_front c (split_lines r)
        end
  end.

(** Whether the text holds a line feed. *)
Fixpoint has_lf (s : string) : bool :=
  match s with
  | EmptyString => false
  | String c r => is_lf c || has_lf r
  end.

End JS.

(** ** The [JSON] built-ins

    An executable model of [JSON.stringify(v, null, 2)] and [JSON.parse]
    on the values above, with strings of code units below 256 and integer
    numbers.  The handlers are embedded over any pair of such functions
    (section [Checklist] takes them as variables); the examples and the
    round trip of an export run on this model. *)
Module JSON.

Definition dquote : ascii := "034"%char.
Definition backslash : ascii := "092"%char.
Definition nl : string := String "010"%char EmptyString.

Definition hex_digit (n : nat) : ascii :=
  if Nat.ltb n 10 then ascii_of_nat (48 + n) else ascii_of_nat (87 + n).

Definition escape (c : ascii) : string :=
  let n := nat_of_ascii c in
  if Nat.eqb n 34 then String backslash (String dquote EmptyString)
  else if Nat.eqb n 92 then String backslash (String backslash EmptyString)
  else if Nat.eqb n 8 then String backslash "b"
  else if Nat.eqb n 9 then String backslash "t"
  else if Nat.eqb n 10 then String backslash "n"
  else if Nat.eqb n 12 then String backslash "f"
  else if Nat.eqb n 13 then String backslash "r"
  else if Nat.ltb n 32 then
    String backslash
      (String "u" (String "0" (String "0"
         (String (hex_digit (n / 16)) (String (hex_digit (n mod 16)) EmptyString)))))
  else String c EmptyString.

Fixpoint escape_all (s : string) : string :=
  match s with
  | EmptyString => EmptyString
  | String c r => escape c ++ escape_all r
  end.

Definition quote (s : string) : string :=
  String dquote (escape_all s ++ String dquote EmptyString).

Fixpoint spaces (n : nat) : string :=
  match n with
  | O => EmptyString
  | S m => String " " (spaces m)
  end.

Definition number (n : Z) : string := NilZero.string_of_int (Z.to_int n).

(** [write ind v]: the text of [v] when its opening bracket sits at
    indentation [ind]; every nesting level indents by two spaces. *)
Fixpoint write (ind : nat) (v : JValue) : string :=
  match v with
  | JNull => "null"
  | JBool true => "true"
  | JBool false => "false"
  | JNum n => number n
  | JStr s => quote s
  | JArr [] => "[]"
  | JArr elems =>
      let inner := spaces (2 + ind) in
      "[" ++ nl ++ inner
          ++ String.concat ("," ++ nl ++ inner) (map (write (2 + ind)) elems)
          ++ nl ++ spaces ind ++ "]"
  | JObj [] => "{}"
  | JObj members =>
      let inner := spaces (2 + ind) in
      "{" ++ nl ++ inner
          ++ String.concat ("," ++ nl ++ inner)
               (map (fun kv => quote (fst kv) ++ ": " ++ write (2 + ind) (snd kv)) members)
          ++ nl ++ spaces ind ++ "}"
  end.

(** [JSON.stringify(v, null, 2)] *)
Definition stringify (v : JValue) : string := write 0 v.

(** [JSON.stringify(v)]: no indentation, no white space. *)
Fixpoint compact (v : JValue) : string :=
  match v with
  | JNull => "null"
  | JBool true => "true"
  | JBool false => "false"
  | JNum n => number n
  | JStr s => quote s
  | JArr elems => "[" ++ String.concat "," (map compact elems) ++ "]"
  | JObj members =>
      "{" ++ String.concat ","
               (map (fun kv => quote (fst kv) ++ ":" ++ compact (snd kv)) members)
          ++ "}"
  end.

(** *** Parsing *)

Definition is_ws (c : ascii) : bool :=
  let n := nat_of_ascii c in
  Nat.eqb n 32 || Nat.eqb n 9 || Nat.eqb n 10 || Nat.eqb n 13.

Fixpoint skip_ws (s : string) : string :=
  match s with
  | EmptyString => EmptyString
  | String c r => if is_ws c then skip_ws r else s
  end.

Definition hex_value (c : ascii) : option nat :=
  let n := nat_of_ascii c in
  if Nat.leb 48 n && Nat.leb n 57 then Some (n - 48)
  else if Nat.leb 97 n && Nat.leb n 102 then Some (n - 87)
  else if Nat.leb 65 n && Nat.leb n 70 then Some (n - 55)
  else None.

Definition unescape (c : ascii) : option ascii :=
  let n := nat_of_ascii c in
  if Nat.eqb n 34 then Some dquote
  else if Nat.eqb n 92 then Some backslash
  else if Nat.eqb n 47 then Some "/"%char
  else if Nat.eqb n 98 then Some "008"%char
  else if Nat.eqb n 116 then Some "009"%char
  else if Nat.eqb n 110 then Some "010"%char
  else if Nat.eqb n 102 then Some "012"%char
  else if Nat.eqb n 114 then Some "013"%char
  else None.

Definition after (c : ascii) (r : option (string * string)) : option (string * string) :=
  match r with
  | Some (body, rest) => Some (String c body, rest)
  | None => None
  end.

(** The characters of a string literal after its opening quote, up to
    and including the closing quote. *)
Fixpoint string_body (s : string) : option (string * string) :=
  match s with
  | EmptyString => None
  | String c r =>
      let n := nat_of_ascii c in
      if Nat.eqb n 34 then Some (EmptyString, r)
      else if Nat.eqb n 92 then
        match r with
        | EmptyString => None
        | String e r1 =>
            if Nat.eqb (nat_of_ascii e) 117 then
              match r1 with
              | String h1 (String h2 (String h3 (String h4 r2))) =>
                  match hex_value h1, hex_value h2, hex_value h3, hex_value h4 with
                  | Some 0, Some 0, Some a, Some b =>
                      after (ascii_of_nat (16 * a + b)) (string_body r2)
                  | _, _, _, _ => None
                  end
              | _ => None
              end
            else
              match unescape e with
              | Some d => after d (string_body r1)
              | None => None
              end
        end
      else if Nat.ltb n 32 then None
      else after c (string_body r)
  end.

Definition digit_value (c : ascii) : option Z :=
  let n := nat_of_ascii c in
  if Nat.leb 48 n && Nat.leb n 57 then Some (Z.of_nat (n - 48)) else None.

Fixpoint digits (s : string) : list Z * string :=
  match s with
  | EmptyString => ([], EmptyString)
  | String c r =>
      match digit_value c with
      | Some d => let (ds, rest) := digits r in (d :: ds, rest)
      | None => ([], s)
      end
  end.

Definition natural (s : string) : option (Z * string) :=
  match digits s with
  | ([], _) => None
  | (0%Z :: _ :: _, _) => None
  | (ds, rest) => Some (fold_left (fun acc d => (10 * acc + d)%Z) ds 0%Z, rest)
  end.

Definition integer (s : string) : option (Z * string) :=
  match s with
  | String "-" r =>
      match natural r with
      | Some (n, rest) => Some ((- n)%Z, rest)
      | None => None
      end
  | _ => natural s
  end.

Fixpoint starts_with (p s : string) : option string :=
  match p, s with
  | EmptyString, _ => Some s
  | String a p', String b s' => if Ascii.eqb a b then starts_with p' s' else None
  | String _ _, EmptyString => None
  end.

Definition scalar (s : string) : option (JValue * string) :=
  match s with
  | String c r =>
      if Ascii.eqb c dquote then
        match string_body r with
        | Some (body, rest) => Some (JStr body, rest)
        | None => None
        end
      else
        match starts_with "null" s, starts_with "true" s, starts_with "false" s with
        | Some rest, _, _ => Some (JNull, rest)
        | _, Some rest, _ => Some (JBool true, rest)
        | _, _, Some rest => Some (JBool false, rest)
        | _, _, _ =>
            match integer s with
            | Some (n, rest) => Some (JNum n, rest)
            | None => None
            end
        end
  | EmptyString => None
  end.

Fixpoint value (fuel : nat) (s : string) {struct fuel} : option (JValue * string) :=
  match fuel with
  | O => None
  | S fuel' =>
      match skip_ws s with
      | String "[" r =>
          match skip_ws r with
          | String "]" r' => Some (JArr [], r')
          | _ => elements fuel' r []
          end
      | String "{" r =>
          match skip_ws r with
          | String "}" r' => Some (JObj [], r')
          | _ => members fuel' r []
          end
      | s' => scalar s'
      end
  end
with elements (fuel : nat) (s : string) (acc : list JValue) {struct fuel}
  : option (JValue * string) :=
  match fuel with
  | O => None
  | S fuel' =>
      match value fuel' s with
      | Some (v, r) =>
          match skip_ws r with
          | String "," r' => elements fuel' r' (v :: acc)
          | String "]" r' => Some (JArr (rev (v :: acc)), r')
          | _ => None
          end
      | None => None
      end
  end
with members (fuel : nat) (s : string) (acc : list (string * JValue)) {struct fuel}
  : option (JValue * string) :=
  match fuel with
  | O => None
  | S fuel' =>
      match skip_ws s with
      | String c r =>
          if Ascii.eqb c dquote then
            match string_body r with
            | Some (k, r1) =>
                match skip_ws r1 with
                | String ":" r2 =>
                    match value fuel' r2 with
                    | Some (v, r3) =>
                        match skip_ws r3 with
                        | String "," r4 => members fuel' r4 ((k, v) :: acc)
                        | String "}" r4 => Some (JObj (rev ((k, v) :: acc)), r4)
                        | _ => None
                        end
                    | None => None
                    end
                | _ => None
                end
            | None => None
            end
          else None
      | EmptyString => None
      end
  end.

(** [JSON.parse(s)]; [None] when it throws a [SyntaxError]. *)
Definition parse (s : string) : option JValue :=
  match value (2 * String.length s + 2) s with
  | Some (v, rest) =>
      match skip_ws rest with
      | EmptyString => Some v
      | String _ _ => None
      end
  | None => None
  end.

(** Payloads in the examples are written with an apostrophe where the
    text has a double quote. *)
Fixpoint with_quotes (s : string) : string :=
  match s with
  | EmptyString => EmptyString
  | String c r => String (if Ascii.eqb c "'" then dquote else c) (with_quotes r)
  end.

End JSON.

(** ** The component's data *)

(** [type Item = { id: string; text: string; completed: boolean }].
    The type annotation is not checked at run time: [importJSON] stores
    whatever truthy value a file gives as [id], so the field holds a
    value; [text] and [completed] are a string and a boolean on every
    path that builds an item. *)
Record Item : Type := mkItem {
  id : JValue;
  text : string;
  completed : bool
}.

(** ["all" | "active" | "completed"] *)
Inductive FilterMode : Type := All | Active | Completed.

(** The [useState] cells of [ChecklistApp].  [editingId] is
    [string | null]: [startEdit(item)] stores [item.id] there and
    [item.text] in [editingText]. *)
Record State : Type := mkState {
  items : list Item;
  input : string;
  bulkInput : string;
  filter : FilterMode;
  editingId : option string;
  editingText : string
}.

Definition setItems (f : list Item -> list Item) (st : State) : State :=
  mkState (f (items st)) (input st) (bulkInput st) (filter st) (editingId st) (editingText st).

Definition setInput (v : string) (st : State) : State :=
  mkState (items st) v (bulkInput st) (filter st) (editingId st) (editingText st).

Definition setBulkInput (v : string) (st : State) : State :=
  mkState (items st) (input st) v (filter st) (editingId st) (editingText st).

Definition setFilter (v : FilterMode) (st : State) : State :=
  mkState (items st) (input st) (bulkInput st) v (editingId st) (editingText st).

Definition setEditingId (v : option string) (st : State) : State :=
  mkState (items st) (input st) (bulkInput st) (filter st) v (editingText st).

Definition setEditingText (v : string) (st : State) : State :=
  mkState (items st) (input st) (bulkInput st) (filter st) (editingId st) v.

(** The two [alert] calls of [importJSON]:
    "Arquivo invalido: JSON deve ser um array de itens." and
    "Erro ao ler arquivo: " followed by the exception. *)
Inductive Alert : Type := InvalidFile | ReadError.

(** What [localStorage.getItem(STORAGE_KEY)] does: throws, returns
    [null], or returns the stored text. *)
Inductive Storage : Type :=
| Unavailable
| Absent
| Stored (raw : string).

(** ** Drawing ids

    A computation that may call [cryptoRandomId]: it is told how many
    ids have been drawn so far and says how many have been drawn when it
    is done. *)
Definition Gen (A : Type) : Type := nat -> A * nat.

Definition ret {A : Type} (a : A) : Gen A := fun n => (a, n).

Definition bind {A B : Type} (m : Gen A) (k : A -> Gen B) : Gen B :=
  fun n => let (a, n') := m n in k a n'.

Notation "x <- m ;; k" := (bind m (fun x => k))
  (at level 61, m at next level, right associativity).

(** [xs.map(f)] for a callback that draws ids: left to right. *)
Fixpoint mapM {A B : Type} (f : A -> Gen B) (xs : list A) : Gen (list B) :=
  match xs with
  | [] => ret []
  | x :: rest =>
      y <- f x ;;
      ys <- mapM f rest ;;
      ret (y :: ys)
  end.

(** [Array.prototype.splice]'s start position for an array of [len]
    elements: a negative start counts from the end, and the result is
    clamped to [0 .. len]. *)
Definition splice_start (len : nat) (start : Z) : nat :=
  if (start <? 0)%Z then Z.to_nat (Z.max (Z.of_nat len + start) 0)
  else Nat.min (Z.to_nat start) len.

(** [bulkInput.split(/\r?\n/).map(line => line.trim()).filter(line => line.length > 0)] *)
Definition bulk_lines (bulk : string) : list string :=
  List.filter (fun line => Nat.ltb 0 (String.length line))
    (map JS.trim (JS.split_lines bulk)).

(** The operations of the list store, as the specification names them. *)
Inductive Op : Type :=
| Add (t : string)
| AddBulk (multiline : string)
| Remove (target : string)
| Toggle (target : string)
| Edit (target : string) (newText : string)
| ClearCompleted
| Reorder (fromIndex toIndex : Z)
| ImportSnapshot (payload : string).

Definition emptyState : State :=
  mkState [] EmptyString EmptyString All None EmptyString.

(** ** Sample data for the examples *)

Definition milk : Item := mkItem (JStr "a1") "Buy milk" false.
Definition dog : Item := mkItem (JStr "b2") "Walk dog" true.

Definition sampleState : State :=
  mkState [dog; milk] EmptyString EmptyString All None EmptyString.

(** An item whose id is the empty string. *)
Definition unnamed : Item := mkItem (JStr EmptyString) "a" false.

Definition unnamedState : State :=
  mkState [unnamed] EmptyString EmptyString All None EmptyString.

Definition payload_empty_text : string :=
  JSON.with_quotes "[{'id':'a','text':''}]".

Definition payload_same_id : string :=
  JSON.with_quotes "[{'id':'a','text':'x'},{'id':'a','text':'y'}]".

(** Two lines around an empty one, the first ended by CR LF. *)
Definition bulk_sample : string :=
  " a" ++ String "013"%char (String "010"%char (String "010"%char "b ")).

(** The state after [add] of "Walk dog" on the empty list. *)
Definition walkState : State :=
  mkState [mkItem (JStr "#") "Walk dog" false] EmptyString EmptyString All None EmptyString.

(** A payload that brings the first id of [tally], and one that brings
    the second. *)
Definition payload_first_id : string :=
  JSON.with_quotes "[{'id':'#','text':'x'}]".

Definition payload_second_id : string :=
  JSON.with_quotes "[{'id':'i#','text':'x'}]".

Definition firstIdState : State :=
  mkState [mkItem (JStr "#") "x" false] EmptyString EmptyString All None EmptyString.

Definition secondIdState : State :=
  mkState [mkItem (JStr "i#") "x" false] EmptyString EmptyString All None EmptyString.

(** Two lines. *)
Definition bulk_two : string := "y" ++ String "010"%char "z".

Definition payload_mixed : string :=
  JSON.with_quotes "[{'id':'a','text':'x','completed':1},{'text':'y'},{'id':'z'},7]".

(** An id source for the examples: it never returns the same id twice. *)
Fixpoint tally (n : nat) : string :=
  match n with
  | O => "#"
  | S m => String "i" (tally m)
  end.

Section Checklist.

(** [randomId n] is the string the [n]-th call of [cryptoRandomId]
    returns, whether [crypto.randomUUID()] produced it or the
    [Math.random()] fallback. *)
Variable randomId : nat -> string.

(** [JSON.parse], [None] when it throws; [JSON.stringify(v, null, 2)]. *)
Variable JSON_parse : string -> option JValue.
Variable JSON_stringify : JValue -> string.

Definition cryptoRandomId : Gen string := fun n => (randomId n, S n).

(** The initialiser of [useState<Item[]>]: the value the component
    starts with as [items]. *)
Definition initialItems (store : Storage) : JValue :=
  match store with
  | Unavailable => JArr []
  | Absent => JArr []
  | Stored raw =>
      if String.eqb raw EmptyString then JArr []
      else
        match JSON_parse raw with
        | Some v => v
        | None => JArr []
        end
  end.

Definition addItem (st : State) : Gen State :=
  let trimmed := JS.trim (input st) in
  if String.eqb trimmed EmptyString then ret st
  else
    fresh <- cryptoRandomId ;;
    let newItem := mkItem (JStr fresh) trimmed false in
    ret (setInput EmptyString (setItems (fun prev => newItem :: prev) st)).

(** The callback of [lines.map] in [addBulkItems]. *)
Definition lineItem (line : string) : Gen Item :=
  fresh <- cryptoRandomId ;;
  ret (mkItem (JStr fresh) line false).

Definition addBulkItems (st : State) : Gen State :=
  let lines := bulk_lines (bulkInput st) in
  if Nat.eqb (List.length lines) 0 then ret st
  else
    newItems <- mapM lineItem lines ;;
    ret (setBulkInput EmptyString (setItems (fun prev => (newItems ++ prev)%list) st)).

Definition removeItem (target : string) (st : State) : State :=
  setItems (List.filter (fun i => negb (JS.strict_eq_string (id i) target))) st.

Definition toggleItem (target : string) (st : State) : State :=
  setItems (map (fun i =>
                   if JS.strict_eq_string (id i) target
                   then mkItem (id i) (text i) (negb (completed i))
                   else i)) st.

(** [editingId] is [null] ([None]) when nothing is being edited;
    [!editingId] also holds for the empty string. *)
Definition saveEdit (st : State) : State :=
  match editingId st with
  | None => st
  | Some target =>
      if String.eqb target EmptyString then st
      else
        let trimmed := JS.trim (editingText st) in
        let st' :=
          if String.eqb trimmed EmptyString then removeItem target st
          else
            setItems (map (fun i =>
                             if JS.strict_eq_string (id i) target
                             then mkItem (id i) trimmed (completed i)
                             else i)) st in
        setEditingText EmptyString (setEditingId None st')
  end.

Definition cancelEdit (st : State) : State :=
  setEditingText EmptyString (setEditingId None st).

Definition clearCompleted (st : State) : State :=
  setItems (List.filter (fun i => negb (completed i))) st.

(** [reorder]: the copy loses the element at [fromIndex] and gets it
    back at [toIndex].  When [fromIndex] selects no element the first
    [splice] removes nothing, [moved] is [undefined] and the second
    [splice] inserts [undefined] into the array: the result is no list
    of items any more, which [None] stands for. *)
Definition reorder_items (fromIndex toIndex : Z) (prev : list Item) : option (list Item) :=
  let a := splice_start (List.length prev) fromIndex in
  match nth_error prev a with
  | Some moved =>
      let copy := (firstn a prev ++ skipn (S a) prev)%list in
      let b := splice_start (List.length copy) toIndex in
      Some (firstn b copy ++ moved :: skipn b copy)%list
  | None => None
  end.

Definition reorder (fromIndex toIndex : Z) (st : State) : option State :=
  match reorder_items fromIndex toIndex (items st) with
  | Some l => Some (setItems (fun _ => l) st)
  | None => None
  end.

(** What [JSON.stringify] sees of an item: its three own properties in
    the order every object literal of the component lists them. *)
Definition item_value (i : Item) : JValue :=
  JObj [("id", id i); ("text", JStr (text i)); ("completed", JBool (completed i))].

(** [exportJSON]: the text handed to the browser as
    [checklist-export.json]. *)
Definition exportJSON (st : State) : string :=
  JSON_stringify (JArr (map item_value (items st))).

(** [x && typeof x.text === "string"] *)
Definition keep (x : JValue) : bool :=
  JS.truthy x && JS.is_string (JS.prop "text" x).

(** [x.text] of an entry that passed [keep]. *)
Definition text_of (x : JValue) : string :=
  match JS.prop "text" x with
  | Some (JStr s) => s
  | _ => EmptyString
  end.

(** [{ id: x.id || cryptoRandomId(), text: x.text, completed: !!x.completed }] *)
Definition normalize (x : JValue) : Gen Item :=
  ident <- match JS.prop "id" x with
           | Some v =>
               if JS.truthy v then ret v
               else (fresh <- cryptoRandomId ;; ret (JStr fresh))
           | None => fresh <- cryptoRandomId ;; ret (JStr fresh)
           end ;;
  ret (mkItem ident (text_of x) (JS.truthy_opt (JS.prop "completed" x))).

(** [importJSON(file)] with the [FileReader]'s [onload] run: [file] is
    [None] for [null], else the text of the file.  The result carries the
    alert shown to the user, if any. *)
Definition importJSON (file : option string) (st : State) : Gen (State * option Alert) :=
  match file with
  | None => ret (st, None)
  | Some content =>
      match JSON_parse content with
      | Some (JArr parsed) =>
          normalized <- mapM normalize (List.filter keep parsed) ;;
          ret (setItems (fun _ => normalized) st, None)
      | Some _ => ret (st, Some InvalidFile)
      | None => ret (st, Some ReadError)
      end
  end.

(** [visible]: the items shown under the current filter. *)
Definition visible (st : State) : list Item :=
  List.filter (fun i =>
                 match filter st with
                 | All => true
                 | Active => negb (completed i)
                 | Completed => completed i
                 end) (items st).

(** ** The list store

    Each operation of the specification is the user action that reaches
    the handler: typing a text and pressing Enter; pasting lines and
    pressing the bulk button; [startEdit] on the item with the given id,
    typing the new text, and [saveEdit]. *)
Definition add (t : string) (st : State) : Gen State :=
  addItem (setInput t st).

Definition addBulk (multiline : string) (st : State) : Gen State :=
  addBulkItems (setBulkInput multiline st).

Definition edit (target newText : string) (st : State) : State :=
  saveEdit (setEditingText newText (setEditingId (Some target) st)).

Definition importSnapshot (payload : string) (st : State) : Gen (State * option Alert) :=
  importJSON (Some payload) st.

(** One operation from a state with [n] ids drawn; [None] only for a
    [reorder] whose [fromIndex] selects no element. *)
Definition exec (op : Op) (st : State) (n : nat) : option (State * nat) :=
  match op with
  | Add t => Some (add t st n)
  | AddBulk m => Some (addBulk m st n)
  | Remove target => Some (removeItem target st, n)
  | Toggle target => Some (toggleItem target st, n)
  | Edit target newText => Some (edit target newText st, n)
  | ClearCompleted => Some (clearCompleted st, n)
  | Reorder a b =>
      match reorder a b st with
      | Some st' => Some (st', n)
      | None => None
      end
  | ImportSnapshot payload =>
      let (res, n') := importSnapshot payload st n in Some (fst res, n')
  end.

(** States the operations reach from the empty list with no id drawn,
    using only operations that [ok] admits where they are applied. *)
Inductive reachable_by (ok : Op -> State -> nat -> Prop) : State -> nat -> Prop :=
| reach_empty : reachable_by ok emptyState 0
| reach_step : forall op st n st' n',
    reachable_by ok st n ->
    ok op st n ->
    exec op st n = Some (st', n') ->
    reachable_by ok st' n'.

Definition reachable : State -> nat -> Prop :=
  reachable_by (fun _ _ _ => True).

(** A sequence of operations, one after the other. *)
Fixpoint run (ops : list Op) (st : State) (n : nat) : option (State * nat) :=
  match ops with
  | [] => Some (st, n)
  | op :: rest =>
      match exec op st n with
      | Some (st', n') => run rest st' n'
      | None => None
      end
  end.

(** [ok] holds of every operation of the sequence where it is applied. *)
Fixpoint allowed (ok : Op -> State -> nat -> Prop) (ops : list Op) (st : State) (n : nat)
  : Prop :=
  match ops with
  | [] => True
  | op :: rest =>
      ok op st n /\
      match exec op st n with
      | Some (st', n') => allowed ok rest st' n'
      | None => True
      end
  end.

(** The ids a payload brings along: [x.id] of every kept entry where it
    is truthy. *)
Definition given_id (x : JValue) : list JValue :=
  match JS.prop "id" x with
  | Some v => if JS.truthy v then [v] else []
  | None => []
  end.

Definition given_ids (parsed : list JValue) : list JValue :=
  flat_map given_id (List.filter keep parsed).

(** An import whose kept entries all have a non-empty text. *)
Definition text_safe (op : Op) (st : State) (n : nat) : Prop :=
  match op with
  | ImportSnapshot payload =>
      forall parsed, JSON_parse payload = Some (JArr parsed) ->
        Forall (fun x => text_of x <> EmptyString) (List.filter keep parsed)
  | _ => True
  end.

(** An import whose ids are pairwise distinct and are not handed out by
    the generator afterwards. *)
Definition ids_safe (op : Op) (st : State) (n : nat) : Prop :=
  match op with
  | ImportSnapshot payload =>
      forall parsed, JSON_parse payload = Some (JArr parsed) ->
        NoDup (given_ids parsed) /\
        forall m, n <= m -> ~ In (JStr (randomId m)) (given_ids parsed)
  | _ => True
  end.

(** How [importJSON] turns a kept entry [x] into an item [i]. *)
Definition normalized_from (x : JValue) (i : Item) : Prop :=
  JS.prop "text" x = Some (JStr (text i)) /\
  completed i = JS.truthy_opt (JS.prop "completed" x) /\
  match JS.prop "id" x with
  | Some v => if JS.truthy v then id i = v else exists k, id i = JStr (randomId k)
  | None => exists k, id i = JStr (randomId k)
  end.

(** The entries of an import as the specification words them: an entry
    that is no object with a string [text] is dropped; a kept entry
    keeps its [id] when that is usable (truthy) and gets the next id
    drawn otherwise; [completed] is coerced to a boolean.  With the
    items comes the number of ids drawn when the last entry is done. *)
Fixpoint normalized_entries (parsed : list JValue) (n : nat) : list Item * nat :=
  match parsed with
  | [] => ([], n)
  | JObj members :: rest =>
      match JS.lookup "text" members with
      | Some (JStr t) =>
          let done :=
            match JS.lookup "completed" members with
            | Some v => JS.truthy v
            | None => false
            end in
          match JS.lookup "id" members with
          | Some v =>
              if JS.truthy v then
                let (l, n') := normalized_entries rest n in
                (mkItem v t done :: l, n')
              else
                let (l, n') := normalized_entries rest (S n) in
                (mkItem (JStr (randomId n)) t done :: l, n')
          | None =>
              let (l, n') := normalized_entries rest (S n) in
              (mkItem (JStr (randomId n)) t done :: l, n')
          end
      | _ => normalized_entries rest n
      end
  | _ :: rest => normalized_entries rest n
  end.

(** The items [addBulkItems] builds from [lines] when [n] ids have been
    drawn. *)
Definition bulk_items (n : nat) (lines : list string) : list Item :=
  map (fun p => mkItem (JStr (randomId (fst p))) (snd p) false)
    (combine (seq n (List.length lines)) lines).

(** What [toggleItem] and [saveEdit] do to one item. *)
Definition flip (target : string) (i : Item) : Item :=
  if JS.strict_eq_string (id i) target
  then mkItem (id i) (text i) (negb (completed i))
  else i.

Definition retext (target trimmed : string) (i : Item) : Item :=
  if JS.strict_eq_string (id i) target
  then mkItem (id i) trimmed (completed i)
  else i.

(** The two invariants of the data model. *)
Definition texts_nonempty (l : list Item) : Prop :=
  Forall (fun i => text i <> EmptyString) l.

Definition ids_distinct (l : list Item) : Prop :=
  NoDup (map id l).

(** No id of [l] is handed out by the generator once [n] ids are drawn. *)
Definition ids_spent (n : nat) (l : list Item) : Prop :=
  forall v m, In v (map id l) -> n <= m -> v <> JStr (randomId m).

(** ** The remaining handlers and effects *)

(** [startEdit(item)].  [editingId] is declared [string | null]; an item
    whose id is no string is outside what this cell is modelled to hold,
    which [None] stands for. *)
Definition startEdit (item : Item) (st : State) : option State :=
  match id item with
  | JStr s => Some (setEditingText (text item) (setEditingId (Some s) st))
  | _ => None
  end.

(** [JSON.stringify(v)], as the persistence effect calls it. *)
Variable JSON_stringify_flat : JValue -> string.

(** The effect run after every change of [items]:
    [localStorage.setItem(STORAGE_KEY, JSON.stringify(items))], when the
    store takes the value. *)
Definition saveItems (st : State) : Storage :=
  Stored (JSON_stringify_flat (JArr (map item_value (items st)))).

(** The two counters of the page: [items.length] in the header and
    [items.filter(i => !i.completed).length] in the footer. *)
Definition totalCount (st : State) : nat := List.length (items st).

Definition pendingCount (st : State) : nat :=
  List.length (List.filter (fun i => negb (completed i)) (items st)).

(** The list without the element at position [k]. *)
Definition without (k : nat) (l : list Item) : list Item :=
  (firstn k l ++ skipn (S k) l)%list.

(** An import whose kept entries all have a trimmed text. *)
Definition trim_safe (op : Op) (st : State) (n : nat) : Prop :=
  match op with
  | ImportSnapshot payload =>
      forall parsed, JSON_parse payload = Some (JArr parsed) ->
        Forall (fun x => JS.trim (text_of x) = text_of x) (List.filter keep parsed)
  | _ => True
  end.

Definition texts_trimmed (l : list Item) : Prop :=
  Forall (fun i => JS.trim (text i) = text i) l.

Definition ids_usable (l : list Item) : Prop :=
  Forall (fun i => JS.truthy (id i) = true) l.

(** ** Properties of the handlers *)

Lemma initialItems_parsed (raw : string) (v : JValue) :
  raw <> EmptyString -> JSON_parse raw = Some v ->
  initialItems (Stored raw) = v.
Proof.
  intros N P. unfold initialItems. rewrite P.
  destruct (String.eqb_spec raw EmptyString) as [E|_]; [contradiction|reflexivity].
Qed.

Lemma setItems_items (f : list Item -> list Item) (st : State) :
  items (setItems f st) = f (items st).
Proof. reflexivity. Qed.

Lemma mapM_lineItem (lines : list string) (n : nat) :
  mapM lineItem lines n = (bulk_items n lines, n + List.length lines).
Proof.
  revert n; induction lines as [|line rest IH]; intro n.
  - cbn. now rewrite Nat.add_0_r.
  - cbn [mapM]. unfold bind at 1. cbn [lineItem cryptoRandomId bind ret].
    unfold bind. rewrite IH. unfold ret, bulk_items. cbn.
    now rewrite Nat.add_succ_r.
Qed.

Lemma bulk_items_length (n : nat) (lines : list string) :
  List.length (bulk_items n lines) = List.length lines.
Proof.
  unfold bulk_items. rewrite length_map, length_combine, length_seq.
  apply Nat.min_id.
Qed.

Lemma bulk_items_text (n : nat) (lines : list string) :
  map text (bulk_items n lines) = lines.
Proof.
  unfold bulk_items. revert n.
  induction lines as [|line rest IH]; intro n; cbn; [reflexivity|].
  now rewrite IH.
Qed.

Lemma bulk_items_id (n : nat) (lines : list string) :
  map id (bulk_items n lines) =
  map (fun k => JStr (randomId k)) (seq n (List.length lines)).
Proof.
  unfold bulk_items. revert n.
  induction lines as [|line rest IH]; intro n; cbn; [reflexivity|].
  now rewrite IH.
Qed.

Lemma bulk_items_completed (n : nat) (lines : list string) :
  Forall (fun i => completed i = false) (bulk_items n lines).
Proof.
  unfold bulk_items. apply Forall_map, Forall_forall. reflexivity.
Qed.

Lemma add_result (t : string) (st : State) (n : nat) :
  add t st n =
    if String.eqb (JS.trim t) EmptyString then (setInput t st, n)
    else (setInput EmptyString
            (setItems (fun prev => mkItem (JStr (randomId n)) (JS.trim t) false :: prev)
               (setInput t st)), S n).
Proof.
  unfold add, addItem. cbn [input setInput].
  now destruct (String.eqb (JS.trim t) EmptyString).
Qed.

Lemma addBulk_result (multiline : string) (st : State) (n : nat) :
  items (fst (addBulk multiline st n)) =
    (bulk_items n (bulk_lines multiline) ++ items st)%list /\
  snd (addBulk multiline st n) = n + List.length (bulk_lines multiline).
Proof.
  unfold addBulk, addBulkItems. cbn [bulkInput setBulkInput].
  destruct (Nat.eqb_spec (List.length (bulk_lines multiline)) 0) as [Z|Z].
  - apply length_zero_iff_nil in Z. rewrite Z. cbn. now rewrite Nat.add_0_r.
  - unfold bind. rewrite mapM_lineItem. cbn. split; reflexivity.
Qed.

Lemma flip_id (target : string) (i : Item) : id (flip target i) = id i.
Proof. unfold flip. now destruct (JS.strict_eq_string (id i) target). Qed.

Lemma flip_text (target : string) (i : Item) : text (flip target i) = text i.
Proof. unfold flip. now destruct (JS.strict_eq_string (id i) target). Qed.

Lemma flip_flip (target : string) (i : Item) : flip target (flip target i) = i.
Proof.
  unfold flip. destruct (JS.strict_eq_string (id i) target) eqn:E; cbn [id].
  - rewrite E. destruct i as [a b c]. cbn. now rewrite negb_involutive.
  - now rewrite E.
Qed.

Lemma retext_id (target trimmed : string) (i : Item) :
  id (retext target trimmed i) = id i.
Proof. unfold retext. now destruct (JS.strict_eq_string (id i) target). Qed.

Lemma retext_retext (target trimmed : string) (i : Item) :
  retext target trimmed (retext target trimmed i) = retext target trimmed i.
Proof.
  unfold retext. destruct (JS.strict_eq_string (id i) target) eqn:E; cbn [id].
  - now rewrite E.
  - now rewrite E.
Qed.

Lemma toggleItem_items (target : string) (st : State) :
  items (toggleItem target st) = map (flip target) (items st).
Proof. reflexivity. Qed.

(** C7.  Toggling the same id twice gives back the state it started
    from. *)
Theorem toggle_twice (target : string) (st : State) :
  toggleItem target (toggleItem target st) = st.
Proof.
  destruct st as [l a b f e t]. unfold toggleItem, setItems. cbn. f_equal.
  rewrite map_map. rewrite <- (map_id l) at 2.
  apply map_ext. intro i. apply (flip_flip target i).
Qed.

(** C10.  [toggle] keeps the length of the list, the id and the text at
    every position and every other cell of the state; the item at a
    position is the former one when its id differs from the target, and
    the former one with [completed] negated when it is the target. *)
Theorem toggle_frame (target : string) (st : State) :
  let st' := toggleItem target st in
  List.length (items st') = List.length (items st) /\
  map id (items st') = map id (items st) /\
  map text (items st') = map text (items st) /\
  (forall k i, nth_error (items st) k = Some i ->
     nth_error (items st') k =
       Some (if JS.strict_eq_string (id i) target
             then mkItem (id i) (text i) (negb (completed i))
             else i)) /\
  (forall k, nth_error (items st) k = None -> nth_error (items st') k = None) /\
  setItems (fun _ => items st) st' = st.
Proof.
  cbn zeta. rewrite toggleItem_items. repeat split.
  - apply length_map.
  - rewrite map_map. apply map_ext, flip_id.
  - rewrite map_map. apply map_ext, flip_text.
  - intros k i H. rewrite nth_error_map, H. reflexivity.
  - intros k H. rewrite nth_error_map, H. reflexivity.
  - now destruct st.
Qed.

Lemma edit_state (target newText : string) (st : State) :
  target <> EmptyString ->
  edit target newText st =
    mkState
      (if String.eqb (JS.trim newText) EmptyString
       then List.filter (fun i => negb (JS.strict_eq_string (id i) target)) (items st)
       else map (retext target (JS.trim newText)) (items st))
      (input st) (bulkInput st) (filter st) None EmptyString.
Proof.
  intro T. unfold edit, saveEdit. cbn [editingId setEditingId setEditingText editingText].
  destruct (String.eqb_spec target EmptyString) as [E|_]; [contradiction|].
  now destruct (String.eqb (JS.trim newText) EmptyString).
Qed.

Lemma edit_items (target newText : string) (st : State) :
  target <> EmptyString ->
  items (edit target newText st) =
    if String.eqb (JS.trim newText) EmptyString
    then List.filter (fun i => negb (JS.strict_eq_string (id i) target)) (items st)
    else map (retext target (JS.trim newText)) (items st).
Proof. intro T. now rewrite (edit_state _ _ _ T). Qed.

(** C8, as the code has it: for a non-empty id.  [edit] with a blank
    new text removes the items of that id and keeps the others in order;
    with another new text it puts the trimmed text on the items of that
    id, in place, and a second [edit] with the same arguments changes
    nothing. *)
Theorem edit_spec (target newText : string) (st : State) :
  target <> EmptyString ->
  (JS.trim newText = EmptyString ->
     items (edit target newText st) =
       List.filter (fun i => negb (JS.strict_eq_string (id i) target)) (items st) /\
     Forall (fun i => id i <> JStr target) (items (edit target newText st))) /\
  (JS.trim newText <> EmptyString ->
     items (edit target newText st) =
       map (fun i => if JS.strict_eq_string (id i) target
                     then mkItem (id i) (JS.trim newText) (completed i)
                     else i) (items st) /\
     edit target newText (edit target newText st) = edit target newText st).
Proof.
  intro T. split; intro H.
  - rewrite (edit_items _ _ _ T).
    destruct (String.eqb_spec (JS.trim newText) EmptyString) as [_|N]; [|contradiction].
    split; [reflexivity|].
    apply Forall_forall. intros i Hi. apply filter_In in Hi. destruct Hi as [_ Hi].
    intro E. rewrite E in Hi. cbn in Hi. now rewrite String.eqb_refl in Hi.
  - split.
    + rewrite (edit_items _ _ _ T).
      destruct (String.eqb_spec (JS.trim newText) EmptyString) as [N|_]; [contradiction|].
      reflexivity.
    + rewrite (edit_state target newText (edit target newText st) T).
      rewrite (edit_state target newText st T).
      destruct (String.eqb_spec (JS.trim newText) EmptyString) as [N|_]; [contradiction|].
      cbn [items input bulkInput filter]. f_equal.
      rewrite map_map. apply map_ext. intro i.
      apply (retext_retext target (JS.trim newText) i).
Qed.

Lemma keep_text (x : JValue) :
  keep x = true -> JS.prop "text" x = Some (JStr (text_of x)).
Proof.
  unfold keep, text_of, JS.is_string. intro H. apply andb_prop in H. destruct H as [_ H].
  destruct (JS.prop "text" x) as [[| | |s| |]|]; try discriminate. reflexivity.
Qed.

Lemma normalize_cases (x : JValue) (n : nat) :
  (exists v, JS.prop "id" x = Some v /\ JS.truthy v = true /\
             normalize x n =
               (mkItem v (text_of x) (JS.truthy_opt (JS.prop "completed" x)), n)) \/
  (given_id x = [] /\
   normalize x n =
     (mkItem (JStr (randomId n)) (text_of x) (JS.truthy_opt (JS.prop "completed" x)), S n)).
Proof.
  unfold normalize, given_id. destruct (JS.prop "id" x) as [v|].
  - destruct (JS.truthy v) eqn:T.
    + left. exists v. repeat split; assumption.
    + right. split; reflexivity.
  - right. split; reflexivity.
Qed.

Lemma normalize_from (x : JValue) (n : nat) :
  keep x = true ->
  normalized_from x (fst (normalize x n)) /\
  n <= snd (normalize x n) <= S n.
Proof.
  intro K. unfold normalized_from.
  destruct (normalize_cases x n) as [(v & P & T & E)|[G E]]; rewrite E; cbn [fst snd text completed id].
  - rewrite P, T. repeat split; auto using keep_text.
  - repeat split; auto using keep_text.
    unfold given_id in G. destruct (JS.prop "id" x) as [v|].
    + destruct (JS.truthy v); [discriminate|]. now exists n.
    + now exists n.
Qed.

Lemma mapM_cons {A B : Type} (f : A -> Gen B) (x : A) (xs : list A) (n : nat) :
  mapM f (x :: xs) n =
    (fst (f x n) :: fst (mapM f xs (snd (f x n))), snd (mapM f xs (snd (f x n)))).
Proof.
  cbn [mapM]. unfold bind, ret. destruct (f x n) as [y n1]. cbn [fst snd].
  destruct (mapM f xs n1) as [ys n2]. reflexivity.
Qed.

Lemma mapM_normalize_from (xs : list JValue) (n : nat) :
  Forall (fun x => keep x = true) xs ->
  Forall2 normalized_from xs (fst (mapM normalize xs n)) /\
  n <= snd (mapM normalize xs n).
Proof.
  intro K. revert n. induction K as [|x xs Kx _ IH]; intro n.
  - cbn. split; [constructor|lia].
  - rewrite mapM_cons. cbn [fst snd].
    destruct (normalize_from x n Kx) as [F B].
    destruct (IH (snd (normalize x n))) as [F' B'].
    split; [constructor; assumption|lia].
Qed.

Lemma filter_keep (parsed : list JValue) :
  Forall (fun x => keep x = true) (List.filter keep parsed).
Proof. apply Forall_forall. intros x H. now apply filter_In in H. Qed.

Lemma keep_object (members : list (string * JValue)) :
  keep (JObj members) = JS.is_string (JS.lookup "text" members).
Proof. reflexivity. Qed.

Lemma keep_other (x : JValue) :
  (forall members, x <> JObj members) -> keep x = false.
Proof.
  intro H. unfold keep. destruct x; try apply andb_false_r. now elim (H members).
Qed.

(** The handler's [filter] and [map] build the entries the
    specification words. *)
Lemma mapM_normalize_entries (parsed : list JValue) (n : nat) :
  mapM normalize (List.filter keep parsed) n = normalized_entries parsed n.
Proof.
  revert n. induction parsed as [|x rest IH]; intro n; [reflexivity|].
  cbn [List.filter].
  destruct x as [ | b | z | s | elems | members];
    try (rewrite keep_other by (intros m C; discriminate C); cbn [normalized_entries];
         apply IH).
  rewrite keep_object. cbn [normalized_entries].
  destruct (JS.lookup "text" members) as [[ | b | z | t | elems | ms]|] eqn:T;
    cbn [JS.is_string]; try apply IH.
  assert (N : forall ident n1,
             (match JS.lookup "id" members with
              | Some v => if JS.truthy v then (v, n) else (JStr (randomId n), S n)
              | None => (JStr (randomId n), S n)
              end) = (ident, n1) ->
             normalize (JObj members) n =
               (mkItem ident t
                  (match JS.lookup "completed" members with
                   | Some v => JS.truthy v
                   | None => false
                   end), n1)).
  { intros ident n1 H. unfold normalize, text_of, JS.truthy_opt. cbn [JS.prop].
    rewrite T. unfold bind, ret, cryptoRandomId.
    destruct (JS.lookup "id" members) as [v|]; [destruct (JS.truthy v)|];
      injection H as <- <-; reflexivity. }
  rewrite mapM_cons.
  destruct (JS.lookup "id" members) as [v|]; [destruct (JS.truthy v)|];
    rewrite (N _ _ eq_refl); cbn [fst snd]; rewrite IH.
  - now destruct (normalized_entries rest n).
  - now destruct (normalized_entries rest (S n)).
  - now destruct (normalized_entries rest (S n)).
Qed.

(** C2.  A payload that does not parse, or parses to something that is
    no array, leaves the whole state as it was, draws no id and raises
    an alert.  A payload that parses to an array raises no alert and
    installs, in place of the whole former list, the normalized entries:
    one item for each entry that is an object with a string [text], in
    the order of the entries, with that text, with the entry's [id] when
    it is usable and the next id drawn otherwise, and with [completed]
    coerced to a boolean; every other cell of the state keeps its
    value. *)
Theorem importSnapshot_spec (payload : string) (st : State) (n : nat) :
  (JSON_parse payload = None ->
     importSnapshot payload st n = ((st, Some ReadError), n)) /\
  (forall v, JSON_parse payload = Some v -> JS.isArray v = false ->
     importSnapshot payload st n = ((st, Some InvalidFile), n)) /\
  (forall parsed, JSON_parse payload = Some (JArr parsed) ->
     importSnapshot payload st n =
       ((mkState (fst (normalized_entries parsed n))
           (input st) (bulkInput st) (filter st) (editingId st) (editingText st),
         None),
        snd (normalized_entries parsed n))).
Proof.
  unfold importSnapshot, importJSON. repeat split.
  - intro H. now rewrite H.
  - intros v H A. rewrite H. destruct v; try reflexivity. discriminate.
  - intros parsed H. rewrite H. unfold bind, ret.
    rewrite mapM_normalize_entries.
    now destruct (normalized_entries parsed n).
Qed.

Lemma keep_item_value (i : Item) : keep (item_value i) = true.
Proof. reflexivity. Qed.

Lemma normalize_item_value (i : Item) (n : nat) :
  JS.truthy (id i) = true -> normalize (item_value i) n = (i, n).
Proof.
  intro T. unfold normalize. cbn [item_value JS.prop JS.lookup String.eqb Ascii.eqb Bool.eqb].
  rewrite T. unfold bind, ret, text_of.
  cbn [item_value JS.prop JS.lookup String.eqb Ascii.eqb Bool.eqb JS.truthy_opt JS.truthy].
  now destruct i.
Qed.

Lemma mapM_normalize_items (l : list Item) (n : nat) :
  Forall (fun i => JS.truthy (id i) = true) l ->
  mapM normalize (map item_value l) n = (l, n).
Proof.
  induction 1 as [|i l T _ IH].
  - reflexivity.
  - cbn [map]. rewrite mapM_cons, (normalize_item_value i n T). cbn [fst snd].
    now rewrite IH.
Qed.

Lemma filter_keep_items (l : list Item) :
  List.filter keep (map item_value l) = map item_value l.
Proof.
  induction l as [|i l IH]; [reflexivity|].
  cbn [map List.filter]. rewrite keep_item_value. now rewrite IH.
Qed.

(** Whenever [JSON.parse] reads back what [JSON.stringify] wrote for the
    list, importing the export of items with truthy ids installs the same
    items, raises no alert and draws no id. *)
Lemma roundtrip_when_read_back (st st0 : State) (n : nat) :
  Forall (fun i => JS.truthy (id i) = true) (items st) ->
  JSON_parse (exportJSON st) = Some (JArr (map item_value (items st))) ->
  importSnapshot (exportJSON st) st0 n =
    ((setItems (fun _ => items st) st0, None), n).
Proof.
  intros T P. unfold importSnapshot, importJSON. rewrite P.
  unfold bind, ret. rewrite filter_keep_items, (mapM_normalize_items _ n T).
  reflexivity.
Qed.

(** ** Invariants along the operations *)

Lemma run_reachable (ok : Op -> State -> nat -> Prop) (ops : list Op) :
  forall st n st' n',
    reachable_by ok st n -> allowed ok ops st n ->
    run ops st n = Some (st', n') -> reachable_by ok st' n'.
Proof.
  induction ops as [|op rest IH]; intros st n st' n' R A E.
  - cbn in E. now injection E as <- <-.
  - cbn [run allowed] in E, A. destruct A as [A1 A2].
    destruct (exec op st n) as [[st1 n1]|] eqn:X; [|discriminate].
    apply (IH st1 n1); [|exact A2|exact E].
    exact (reach_step ok op st n st1 n1 R A1 X).
Qed.

Lemma nth_error_firstn_skipn (l : list Item) (a : nat) (moved : Item) :
  nth_error l a = Some moved ->
  l = (firstn a l ++ moved :: skipn (S a) l)%list.
Proof.
  revert a; induction l as [|x l IH]; intros [|a] H; try discriminate.
  - cbn in H. injection H as ->. reflexivity.
  - cbn in H. cbn. f_equal. now apply IH.
Qed.

Lemma reorder_items_perm (a b : Z) (l l' : list Item) :
  reorder_items a b l = Some l' -> Permutation l l'.
Proof.
  unfold reorder_items. destruct (nth_error l _) as [moved|] eqn:E; [|discriminate].
  intro H. injection H as <-.
  set (k := splice_start (List.length l) a) in *.
  set (copy := (firstn k l ++ skipn (S k) l)%list).
  apply Permutation_trans with (moved :: copy).
  - rewrite (nth_error_firstn_skipn _ _ _ E) at 1.
    symmetry. apply Permutation_middle.
  - rewrite <- (firstn_skipn (splice_start (List.length copy) b) copy) at 1.
    apply Permutation_middle.
Qed.

Lemma reorder_items_length (a b : Z) (l l' : list Item) :
  reorder_items a b l = Some l' -> List.length l' = List.length l.
Proof. intro H. symmetry. now apply Permutation_length, (reorder_items_perm a b). Qed.

Lemma exec_reorder (a b : Z) (st st' : State) (n n' : nat) :
  exec (Reorder a b) st n = Some (st', n') ->
  Permutation (items st) (items st') /\ n' = n.
Proof.
  cbn [exec]. unfold reorder.
  destruct (reorder_items a b (items st)) as [l|] eqn:E; [|discriminate].
  intro H. injection H as <- <-. split; [|reflexivity].
  now apply (reorder_items_perm a b).
Qed.

Lemma bulk_lines_nonempty (bulk : string) :
  Forall (fun line => line <> EmptyString) (bulk_lines bulk).
Proof.
  apply Forall_forall. intros line H. apply filter_In in H. destruct H as [_ H].
  intro E. rewrite E in H. discriminate.
Qed.

Lemma texts_nonempty_filter (p : Item -> bool) (l : list Item) :
  texts_nonempty l -> texts_nonempty (List.filter p l).
Proof.
  unfold texts_nonempty. rewrite !Forall_forall. intros H i Hi.
  apply filter_In in Hi. now apply H.
Qed.

Lemma texts_nonempty_bulk (n : nat) (lines : list string) :
  Forall (fun line => line <> EmptyString) lines ->
  texts_nonempty (bulk_items n lines).
Proof.
  intro H. unfold texts_nonempty.
  assert (H' : Forall (fun line => line <> EmptyString) (map text (bulk_items n lines)))
    by now rewrite bulk_items_text.
  exact (proj1 (Forall_map text (fun line => line <> EmptyString) _) H').
Qed.

Lemma import_items (payload : string) (st : State) (n : nat) :
  let r := importSnapshot payload st n in
  (exists parsed, JSON_parse payload = Some (JArr parsed) /\
     items (fst (fst r)) = fst (mapM normalize (List.filter keep parsed) n) /\
     snd r = snd (mapM normalize (List.filter keep parsed) n)) \/
  ((forall parsed, JSON_parse payload <> Some (JArr parsed)) /\ fst (fst r) = st /\ snd r = n).
Proof.
  unfold importSnapshot, importJSON. destruct (JSON_parse payload) as [v|].
  - destruct v; try (right; repeat split; intros; discriminate).
    left. exists elems. unfold bind, ret.
    destruct (mapM normalize (List.filter keep elems) n). repeat split.
  - right. repeat split. intros; discriminate.
Qed.

Lemma texts_nonempty_normalized (xs : list JValue) (n : nat) :
  Forall (fun x => text_of x <> EmptyString) xs ->
  texts_nonempty (fst (mapM normalize xs n)).
Proof.
  intro H. revert n. induction H as [|x xs Hx _ IH]; intro n.
  - constructor.
  - rewrite mapM_cons. cbn [fst]. constructor; [|apply IH].
    destruct (normalize_cases x n) as [(v & _ & _ & E)|[_ E]]; now rewrite E.
  Qed.

Lemma exec_texts_nonempty (op : Op) (st st' : State) (n n' : nat) :
  text_safe op st n ->
  exec op st n = Some (st', n') ->
  texts_nonempty (items st) -> texts_nonempty (items st').
Proof.
  intros S E I. destruct op as [t|m|target|target|target newText| |a b|payload].
  - cbn [exec] in E. rewrite add_result in E.
    destruct (String.eqb_spec (JS.trim t) EmptyString) as [Z|Z]; injection E as <- _.
    + exact I.
    + constructor; assumption.
  - cbn [exec] in E. injection E as E.
    destruct (addBulk_result m st n) as [L _]. rewrite E in L. cbn [fst] in L. rewrite L.
    apply Forall_app. split; [|exact I].
    apply texts_nonempty_bulk, bulk_lines_nonempty.
  - cbn [exec] in E. injection E as <- _. now apply texts_nonempty_filter.
  - cbn [exec] in E. injection E as <- _. rewrite toggleItem_items.
    unfold texts_nonempty in *.
    apply (Forall_map (flip target) (fun i => text i <> EmptyString)).
    revert I. apply Forall_impl.
    intros i H. now rewrite flip_text.
  - cbn [exec] in E. injection E as <- _.
    destruct (String.eqb_spec target EmptyString) as [Z|Z].
    + subst target. exact I.
    + rewrite (edit_items _ _ _ Z).
      destruct (String.eqb_spec (JS.trim newText) EmptyString) as [T|T].
      * now apply texts_nonempty_filter.
      * unfold texts_nonempty in *.
        apply (Forall_map (retext target (JS.trim newText)) (fun i => text i <> EmptyString)).
        revert I. apply Forall_impl.
        intros i H. unfold retext. now destruct (JS.strict_eq_string (id i) target).
  - cbn [exec] in E. injection E as <- _. now apply texts_nonempty_filter.
  - apply exec_reorder in E. destruct E as [P _].
    unfold texts_nonempty in *. now rewrite <- P.
  - cbn [exec] in E.
    destruct (import_items payload st n) as [(parsed & P & L & _)|(_ & L & _)];
      destruct (importSnapshot payload st n) as [[st1 al] n1]; cbn [fst snd] in *;
      injection E as <- _.
    + rewrite L. apply texts_nonempty_normalized. now apply (S parsed).
    + now rewrite L.
Qed.

(** C3, as the code has it.  From the empty list, [add], [addBulk],
    [remove], [toggle], [edit], [clearCompleted], every [reorder] whose
    [fromIndex] selects an element, and every [importSnapshot] whose
    kept entries have a non-empty text lead only to lists in which every
    text is non-empty. *)
Theorem reachable_texts_nonempty (st : State) (n : nat) :
  reachable_by text_safe st n -> texts_nonempty (items st).
Proof.
  induction 1 as [|op st n st' n' _ IH S E].
  - constructor.
  - exact (exec_texts_nonempty op st st' n n' S E IH).
Qed.

Lemma In_map_filter {A B : Type} (f : A -> B) (p : A -> bool) (l : list A) (v : B) :
  In v (map f (List.filter p l)) -> In v (map f l).
Proof.
  rewrite !in_map_iff. intros (x & E & H). exists x. split; [exact E|].
  now apply filter_In in H.
Qed.

Lemma NoDup_map_filter {A B : Type} (f : A -> B) (p : A -> bool) (l : list A) :
  NoDup (map f l) -> NoDup (map f (List.filter p l)).
Proof.
  induction l as [|x l IH]; cbn; intro H; [constructor|].
  inversion H as [|? ? Hx Hl]; subst.
  destruct (p x); cbn; auto.
  constructor; auto. intro C. apply Hx. now apply In_map_filter in C.
Qed.

Section Distinct.

(** The id source never returns the same id twice. *)
Hypothesis randomId_fresh : forall a b, randomId a = randomId b -> a = b.

Lemma drawn_distinct (n k : nat) :
  NoDup (map (fun j => JStr (randomId j)) (seq n k)).
Proof.
  apply Injective_map_NoDup; [|apply seq_NoDup].
  intros a b E. injection E as E. now apply randomId_fresh.
Qed.

Lemma drawn_range (n k : nat) (v : JValue) :
  In v (map (fun j => JStr (randomId j)) (seq n k)) ->
  exists j, n <= j < n + k /\ v = JStr (randomId j).
Proof.
  rewrite in_map_iff. intros (j & E & H). apply in_seq in H. now exists j.
Qed.

Lemma given_id_truthy (x v : JValue) :
  JS.prop "id" x = Some v -> JS.truthy v = true -> given_id x = [v].
Proof. intros P T. unfold given_id. now rewrite P, T. Qed.

(** The ids of normalized entries come from the payload or from the
    draws made while normalizing. *)
Lemma mapM_normalize_ids (xs : list JValue) (n : nat) :
  n <= snd (mapM normalize xs n) /\
  (forall v, In v (map id (fst (mapM normalize xs n))) ->
     In v (flat_map given_id xs) \/
     exists j, n <= j < snd (mapM normalize xs n) /\ v = JStr (randomId j)) /\
  (NoDup (flat_map given_id xs) ->
   (forall m, n <= m -> ~ In (JStr (randomId m)) (flat_map given_id xs)) ->
   NoDup (map id (fst (mapM normalize xs n)))).
Proof.
  revert n. induction xs as [|x xs IH]; intro n.
  - cbn. repeat split; [lia|contradiction|constructor].
  - rewrite mapM_cons. cbn [fst snd map flat_map].
    destruct (normalize_cases x n) as [(v & P & T & E)|[G E]]; rewrite E; cbn [fst snd id].
    + rewrite (given_id_truthy x v P T). cbn [app].
      destruct (IH n) as (B & R & D). repeat split.
      * exact B.
      * intros w [<-|H]; [left; now left|].
        destruct (R w H) as [H'|H']; [left; now right|right; exact H'].
      * intros N F. inversion N as [|? ? Nv Nr]; subst.
        constructor.
        -- intro C. destruct (R v C) as [H'|(j & J & ->)]; [contradiction|].
           apply (F j); [lia|now left].
        -- apply D; [exact Nr|]. intros m M C. apply (F m M). now right.
    + rewrite G. cbn [app].
      destruct (IH (S n)) as (B & R & D). repeat split.
      * lia.
      * intros w [<-|H].
        -- right. exists n. split; [lia|reflexivity].
        -- destruct (R w H) as [H'|(j & J & ->)]; [now left|].
           right. exists j. split; [lia|reflexivity].
      * intros N F. constructor.
        -- intro C. destruct (R _ C) as [H'|(j & J & E')].
           ++ now apply (F n).
           ++ injection E' as E'. apply randomId_fresh in E'. lia.
        -- apply D; [exact N|]. intros m M. apply F. lia.
Qed.

Lemma exec_ids (op : Op) (st st' : State) (n n' : nat) :
  ids_safe op st n ->
  exec op st n = Some (st', n') ->
  ids_distinct (items st) /\ ids_spent n (items st) ->
  ids_distinct (items st') /\ ids_spent n' (items st').
Proof.
  unfold ids_distinct, ids_spent.
  intros S E [D F]. destruct op as [t|m|target|target|target newText| |a b|payload].
  - cbn [exec] in E. rewrite add_result in E.
    destruct (String.eqb_spec (JS.trim t) EmptyString) as [Z|Z]; injection E as <- <-.
    + now split.
    + cbn [items setInput setItems map id]. split.
      * constructor; [|exact D]. intro C. now apply (F _ n C).
      * intros v m [<-|H] M.
        -- intro C. injection C as C. apply randomId_fresh in C. lia.
        -- apply F; [exact H|lia].
  - cbn [exec] in E. injection E as E.
    destruct (addBulk_result m st n) as [L N]. rewrite E in L, N. cbn [fst snd] in L, N.
    rewrite L, N, map_app, bulk_items_id. split.
    + apply NoDup_app; [apply drawn_distinct|exact D|].
      intros v H C. apply drawn_range in H. destruct H as (j & J & ->).
      now apply (F _ j C).
    + intros v k H K. apply in_app_or in H. destruct H as [H|H].
      * apply drawn_range in H. destruct H as (j & J & ->).
        intro C. injection C as C. apply randomId_fresh in C. lia.
      * apply F; [exact H|lia].
  - cbn [exec] in E. injection E as <- <-. cbn [removeItem items setItems]. split.
    + now apply NoDup_map_filter.
    + intros v m H. apply In_map_filter in H. now apply F.
  - cbn [exec] in E. injection E as <- <-. rewrite toggleItem_items, map_map.
    rewrite (map_ext _ id (flip_id target)). now split.
  - cbn [exec] in E. injection E as <- <-.
    destruct (String.eqb_spec target EmptyString) as [Z|Z].
    + subst target. now split.
    + rewrite (edit_items _ _ _ Z).
      destruct (String.eqb (JS.trim newText) EmptyString).
      * split; [now apply NoDup_map_filter|].
        intros v m H. apply In_map_filter in H. now apply F.
      * rewrite map_map, (map_ext _ id (retext_id target (JS.trim newText))). now split.
  - cbn [exec] in E. injection E as <- <-. cbn [clearCompleted items setItems]. split.
    + now apply NoDup_map_filter.
    + intros v m H. apply In_map_filter in H. now apply F.
  - apply exec_reorder in E. destruct E as [P ->].
    apply (Permutation_map id) in P. split.
    + now apply (Permutation_NoDup P).
    + intros v m H. apply F. apply Permutation_sym in P. now apply (Permutation_in v P).
  - cbn [exec] in E.
    destruct (import_items payload st n) as [(parsed & P & L & N)|(_ & L & N)];
      destruct (importSnapshot payload st n) as [[st1 al] n1]; cbn [fst snd] in *;
      injection E as <- <-.
    + destruct (S parsed P) as [SD SF]. unfold given_ids in SD, SF.
      destruct (mapM_normalize_ids (List.filter keep parsed) n) as (B & R & ND).
      rewrite L, N. split; [now apply ND|].
      intros v m H M. destruct (R v H) as [H'|(j & J & ->)].
      * intro C. subst v. apply (SF m); [lia|exact H'].
      * intro C. injection C as C. apply randomId_fresh in C. lia.
    + rewrite L, N. now split.
Qed.

Lemma reachable_ids (st : State) (n : nat) :
  reachable_by ids_safe st n ->
  ids_distinct (items st) /\ ids_spent n (items st).
Proof.
  induction 1 as [|op st n st' n' _ IH S E].
  - split; [constructor|]. intros v m H. contradiction.
  - exact (exec_ids op st st' n n' S E IH).
Qed.

(** C4, as the code has it.  With an id source that never repeats, the
    ids stay pairwise distinct from the empty list on through [add],
    [addBulk], [remove], [toggle], [edit], [clearCompleted], every
    [reorder] whose [fromIndex] selects an element, and every
    [importSnapshot] whose payload brings pairwise distinct ids, none of
    which the id source hands out later. *)
Theorem reachable_ids_distinct (st : State) (n : nat) :
  reachable_by ids_safe st n -> ids_distinct (items st).
Proof. intro R. exact (proj1 (reachable_ids st n R)). Qed.

End Distinct.

(** C5, as the code has it.  [add t] with a blank [t] changes neither
    the list nor the id source.  Otherwise the list grows by exactly one
    item, placed first: its text is the trimmed [t], it is not
    completed, its id is the one [cryptoRandomId] returns at this call,
    and the former items follow as they were.  The code compares no
    ids: that id is the id of no former item when the id source never
    repeats and the state was reached through operations whose imports
    brought only ids that the source does not hand out afterwards. *)
Theorem add_spec (t : string) (st : State) (n : nat) :
  (JS.trim t = EmptyString ->
     items (fst (add t st n)) = items st /\ snd (add t st n) = n) /\
  (JS.trim t <> EmptyString ->
     items (fst (add t st n)) =
       mkItem (JStr (randomId n)) (JS.trim t) false :: items st /\
     List.length (items (fst (add t st n))) = S (List.length (items st)) /\
     snd (add t st n) = S n /\
     ((forall a b, randomId a = randomId b -> a = b) ->
      reachable_by ids_safe st n ->
      ~ In (JStr (randomId n)) (map id (items st)))).
Proof.
  rewrite add_result.
  destruct (String.eqb_spec (JS.trim t) EmptyString) as [E|E]; split; intro H.
  - split; reflexivity.
  - contradiction.
  - contradiction.
  - cbn. repeat split.
    intros G R C. destruct (reachable_ids G st n R) as [_ F].
    now apply (F _ n C).
Qed.

(** C6, as the code has it.  With [k] lines left after trimming and
    dropping the empty ones, [addBulk] puts [k] new items in front of
    the former ones, in the order of their lines, each not completed and
    with the next id [cryptoRandomId] returns; the former items follow
    in their order, and with [k = 0] the list is the same.  The code
    compares no ids: the new ids are pairwise distinct when the id
    source never repeats, and none of them is the id of a former item
    when moreover the state was reached through operations whose imports
    brought only ids that the source does not hand out afterwards. *)
Theorem addBulk_spec (multiline : string) (st : State) (n : nat) :
  let lines := bulk_lines multiline in
  let k := List.length lines in
  let st' := fst (addBulk multiline st n) in
  items st' = (bulk_items n lines ++ items st)%list /\
  List.length (items st') = k + List.length (items st) /\
  map text (firstn k (items st')) = lines /\
  map id (firstn k (items st')) = map (fun j => JStr (randomId j)) (seq n k) /\
  Forall (fun i => completed i = false) (firstn k (items st')) /\
  skipn k (items st') = items st /\
  snd (addBulk multiline st n) = n + k /\
  (k = 0 -> items st' = items st) /\
  ((forall a b, randomId a = randomId b -> a = b) ->
     NoDup (map id (firstn k (items st')))) /\
  ((forall a b, randomId a = randomId b -> a = b) ->
   reachable_by ids_safe st n ->
     forall v, In v (map id (firstn k (items st'))) -> ~ In v (map id (items st))).
Proof.
  intros lines k st'.
  destruct (addBulk_result multiline st n) as [E1 E2]. fold lines k st' in E1, E2.
  rewrite E1.
  assert (L : List.length (bulk_items n lines) = k) by apply bulk_items_length.
  assert (P : firstn k (bulk_items n lines ++ items st) = bulk_items n lines).
  { rewrite <- L, firstn_app, Nat.sub_diag, firstn_all, firstn_O. apply app_nil_r. }
  rewrite P. repeat split.
  - rewrite length_app. now rewrite L.
  - apply bulk_items_text.
  - apply bulk_items_id.
  - apply bulk_items_completed.
  - rewrite <- L, skipn_app, Nat.sub_diag, skipn_all. reflexivity.
  - exact E2.
  - intro Z. subst k. apply length_zero_iff_nil in Z. now rewrite Z.
  - intro G. rewrite bulk_items_id. now apply drawn_distinct.
  - intros G R v H C. destruct (reachable_ids G st n R) as [_ F].
    rewrite bulk_items_id in H. apply drawn_range in H. destruct H as (j & J & ->).
    now apply (F _ j C).
Qed.

(** ** Removing, clearing and filtering *)

Lemma strict_eq_string_true (v : JValue) (s : string) :
  JS.strict_eq_string v s = true <-> v = JStr s.
Proof.
  destruct v; cbn; try (split; intro H; discriminate).
  split; intro H.
  - apply String.eqb_eq in H. now subst.
  - injection H as ->. apply String.eqb_refl.
Qed.

Lemma strict_eq_string_false (v : JValue) (s : string) :
  JS.strict_eq_string v s = false <-> v <> JStr s.
Proof.
  rewrite <- (strict_eq_string_true v s).
  destruct (JS.strict_eq_string v s); split; intro H; try discriminate; auto.
  now elim H.
Qed.

Lemma filter_all {A : Type} (p : A -> bool) (l : list A) :
  Forall (fun x => p x = true) l -> List.filter p l = l.
Proof.
  induction 1 as [|x l Hx _ IH]; [reflexivity|]. cbn. now rewrite Hx, IH.
Qed.

Lemma filter_none {A : Type} (p : A -> bool) (l : list A) :
  Forall (fun x => p x = false) l -> List.filter p l = [].
Proof.
  induction 1 as [|x l Hx _ IH]; [reflexivity|]. cbn. now rewrite Hx, IH.
Qed.

Lemma filter_idem {A : Type} (p : A -> bool) (l : list A) :
  List.filter p (List.filter p l) = List.filter p l.
Proof.
  apply filter_all, Forall_forall. intros x H. now apply filter_In in H.
Qed.

Lemma filter_split_length {A : Type} (p : A -> bool) (l : list A) :
  List.length (List.filter p l) + List.length (List.filter (fun x => negb (p x)) l) =
  List.length l.
Proof.
  induction l as [|x l IH]; [reflexivity|]. cbn. destruct (p x); cbn; lia.
Qed.

Lemma filter_split_perm {A : Type} (p : A -> bool) (l : list A) :
  Permutation (List.filter p l ++ List.filter (fun x => negb (p x)) l) l.
Proof.
  induction l as [|x l IH]; [constructor|]. cbn. destruct (p x); cbn.
  - now constructor.
  - symmetry. etransitivity; [|apply Permutation_middle]. constructor. now symmetry.
Qed.

Lemma filter_comm {A : Type} (p q : A -> bool) (l : list A) :
  List.filter p (List.filter q l) = List.filter q (List.filter p l).
Proof.
  induction l as [|x l IH]; [reflexivity|]. cbn.
  destruct (p x) eqn:P, (q x) eqn:Q; cbn; rewrite ?P, ?Q, IH; reflexivity.
Qed.

Lemma filter_map_swap {A : Type} (p : A -> bool) (f : A -> A) (l : list A) :
  (forall x, p (f x) = p x) ->
  List.filter p (map f l) = map f (List.filter p l).
Proof.
  intro H. induction l as [|x l IH]; [reflexivity|]. cbn. rewrite H.
  destruct (p x); cbn; now rewrite IH.
Qed.

(** With distinct ids, exactly one item answers to an id that is in the
    list. *)
Lemma one_match (target : string) (l : list Item) :
  ids_distinct l ->
  (exists i, In i l /\ id i = JStr target) ->
  List.length (List.filter (fun i => JS.strict_eq_string (id i) target) l) = 1.
Proof.
  unfold ids_distinct. induction l as [|x l IH]; intros D (i & Hi & E).
  - contradiction.
  - cbn in D. inversion D as [|? ? Nx Dl]; subst. cbn [List.filter].
    destruct (JS.strict_eq_string (id x) target) eqn:X.
    + apply strict_eq_string_true in X. cbn. f_equal.
      rewrite filter_none; [reflexivity|].
      apply Forall_forall. intros j Hj. apply strict_eq_string_false.
      intro C. apply Nx. rewrite X, <- C. now apply in_map.
    + apply IH; [exact Dl|]. destruct Hi as [<-|Hi].
      * apply strict_eq_string_false in X. contradiction.
      * now exists i.
Qed.

(** X1.  [removeItem] leaves the list filtered: exactly the items
    whose id is not the target, in their order; the list gets shorter by the number of
    items that had the id, which is one when ids are distinct and the
    id is in the list; removing again changes nothing, and no other
    cell of the state is touched. *)
Theorem removeItem_spec (target : string) (st : State) :
  let st' := removeItem target st in
  items st' =
    List.filter (fun i => negb (JS.strict_eq_string (id i) target)) (items st) /\
  (forall i, In i (items st') <-> In i (items st) /\ id i <> JStr target) /\
  List.length (items st') +
    List.length (List.filter (fun i => JS.strict_eq_string (id i) target) (items st)) =
    List.length (items st) /\
  (ids_distinct (items st) -> (exists i, In i (items st) /\ id i = JStr target) ->
     S (List.length (items st')) = List.length (items st)) /\
  (ids_distinct (items st) -> ids_distinct (items st')) /\
  removeItem target st' = st' /\
  setItems (fun _ => items st) st' = st.
Proof.
  cbn zeta. unfold removeItem. rewrite !setItems_items.
  assert (L : List.length (List.filter (fun i => negb (JS.strict_eq_string (id i) target)) (items st)) +
              List.length (List.filter (fun i => JS.strict_eq_string (id i) target) (items st)) =
              List.length (items st)).
  { rewrite Nat.add_comm. apply filter_split_length. }
  split; [reflexivity|]. split; [|split; [|split; [|split; [|split]]]].
  - intro i. rewrite filter_In, negb_true_iff, strict_eq_string_false. reflexivity.
  - exact L.
  - intros D E. rewrite (one_match target _ D E) in L. lia.
  - unfold ids_distinct. apply NoDup_map_filter.
  - destruct st as [l a b f e t]. unfold setItems. cbn. f_equal. apply filter_idem.
  - now destruct st.
Qed.

(** X2.  An operation addressed to an id that no item has leaves the
    list as it is: [removeItem] and [toggleItem] return the same state,
    and [edit] changes no item whatever the new text. *)
Theorem absent_id_noop (target : string) (st : State) :
  Forall (fun i => id i <> JStr target) (items st) ->
  removeItem target st = st /\
  toggleItem target st = st /\
  forall newText, items (edit target newText st) = items st.
Proof.
  intro A.
  assert (F : Forall (fun i => JS.strict_eq_string (id i) target = false) (items st)).
  { revert A. apply Forall_impl. intros i. apply strict_eq_string_false. }
  assert (M : forall g : Item -> Item,
             map (fun i => if JS.strict_eq_string (id i) target then g i else i) (items st)
             = items st).
  { intro g. rewrite <- (map_id (items st)) at 2. apply map_ext_Forall.
    revert F. apply Forall_impl. intros i ->. reflexivity. }
  repeat split.
  - destruct st as [l a b f e t]. unfold removeItem, setItems. cbn in *. f_equal.
    apply filter_all. revert F. apply Forall_impl. now intros i ->.
  - destruct st as [l a b f e t]. unfold toggleItem, setItems. cbn in *. f_equal.
    apply (M (fun i => mkItem (id i) (text i) (negb (completed i)))).
  - intro newText. destruct (String.eqb_spec target EmptyString) as [->|N].
    + reflexivity.
    + rewrite (edit_items _ _ _ N). destruct (String.eqb (JS.trim newText) EmptyString).
      * apply filter_all. revert F. apply Forall_impl. now intros i ->.
      * apply (M (fun i => mkItem (id i) (JS.trim newText) (completed i))).
Qed.

(** X3.  After [clearCompleted] no item is completed and the completed
    view is empty; what stays is the active view of before, in order;
    the pending counter is the same and the total equals it; clearing
    again changes nothing. *)
Theorem clearCompleted_spec (st : State) :
  let st' := clearCompleted st in
  Forall (fun i => completed i = false) (items st') /\
  visible (setFilter Completed st') = [] /\
  items st' = visible (setFilter Active st) /\
  visible (setFilter Active st') = items st' /\
  pendingCount st' = pendingCount st /\
  totalCount st' = pendingCount st /\
  clearCompleted st' = st'.
Proof.
  cbn zeta.
  assert (F : Forall (fun i => completed i = false) (items (clearCompleted st))).
  { apply Forall_forall. intros i H. cbn in H. apply filter_In in H.
    destruct H as [_ H]. now apply negb_true_iff in H. }
  repeat split.
  - exact F.
  - unfold visible. cbn [filter setFilter items]. apply filter_none. exact F.
  - unfold visible. cbn [filter setFilter items clearCompleted setItems].
    apply filter_all. revert F. apply Forall_impl. now intros i ->.
  - unfold pendingCount. cbn [items clearCompleted setItems]. now rewrite filter_idem.
  - destruct st as [l a b f e t]. unfold clearCompleted, setItems. cbn. f_equal.
    apply filter_idem.
Qed.

(** X4.  The filter never changes the list.  Under "all" every item is
    visible; the active and the completed view split the list: each
    keeps the order of the list, together they hold every item once,
    and the pending counter is the length of the active view. *)
Theorem visible_partition (st : State) :
  (forall m, items (setFilter m st) = items st) /\
  visible (setFilter All st) = items st /\
  List.length (visible (setFilter Active st)) +
    List.length (visible (setFilter Completed st)) = List.length (items st) /\
  Permutation (visible (setFilter Completed st) ++ visible (setFilter Active st)) (items st) /\
  Forall (fun i => completed i = false) (visible (setFilter Active st)) /\
  Forall (fun i => completed i = true) (visible (setFilter Completed st)) /\
  pendingCount st = List.length (visible (setFilter Active st)).
Proof.
  unfold visible, pendingCount. cbn [filter setFilter items]. repeat split.
  - apply filter_all, Forall_forall. reflexivity.
  - rewrite Nat.add_comm. apply (filter_split_length completed).
  - apply (filter_split_perm completed).
  - apply Forall_forall. intros i H. apply filter_In in H. destruct H as [_ H].
    now apply negb_true_iff in H.
  - apply Forall_forall. intros i H. now apply filter_In in H.
Qed.

(** X5.  Toggling and removing commute, whatever the ids: two toggles,
    two removals, a removal and a toggle, and [clearCompleted] with a
    removal give the same state in either order. *)
Theorem toggle_remove_commute (a b : string) (st : State) :
  toggleItem a (toggleItem b st) = toggleItem b (toggleItem a st) /\
  removeItem a (removeItem b st) = removeItem b (removeItem a st) /\
  removeItem a (toggleItem b st) = toggleItem b (removeItem a st) /\
  clearCompleted (removeItem a st) = removeItem a (clearCompleted st).
Proof.
  destruct st as [l i0 b0 f e t].
  unfold toggleItem, removeItem, clearCompleted, setItems. cbn [items input bulkInput filter editingId editingText].
  repeat split; f_equal.
  - rewrite !map_map. apply map_ext. intro i.
    change (flip a (flip b i) = flip b (flip a i)).
    unfold flip. destruct (JS.strict_eq_string (id i) b) eqn:B;
      destruct (JS.strict_eq_string (id i) a) eqn:A; cbn [id]; rewrite ?A, ?B; cbn;
      reflexivity.
  - apply filter_comm.
  - change (List.filter (fun i => negb (JS.strict_eq_string (id i) a)) (map (flip b) l) =
            map (flip b) (List.filter (fun i => negb (JS.strict_eq_string (id i) a)) l)).
    apply filter_map_swap. intro i. now rewrite flip_id.
  - apply filter_comm.
Qed.

(** ** Reordering *)

Lemma splice_start_nat (len a : nat) :
  a <= len -> splice_start len (Z.of_nat a) = a.
Proof.
  intro H. unfold splice_start.
  destruct (Z.ltb_spec (Z.of_nat a) 0) as [N|_]; [lia|].
  rewrite Nat2Z.id. now apply Nat.min_l.
Qed.

Lemma without_length (k : nat) (l : list Item) :
  k < List.length l -> S (List.length (without k l)) = List.length l.
Proof.
  intro H. unfold without. rewrite length_app, length_firstn, length_skipn. lia.
Qed.

Lemma firstn_exact {A : Type} (l1 l2 : list A) :
  firstn (List.length l1) (l1 ++ l2) = l1.
Proof. induction l1 as [|x l1 IH]; cbn; [reflexivity|now rewrite IH]. Qed.

Lemma skipn_exact {A : Type} (l1 l2 : list A) :
  skipn (List.length l1) (l1 ++ l2) = l2.
Proof. induction l1 as [|x l1 IH]; cbn; [reflexivity|exact IH]. Qed.

Lemma without_middle (l1 l2 : list Item) (m : Item) :
  nth_error (l1 ++ m :: l2) (List.length l1) = Some m /\
  without (List.length l1) (l1 ++ m :: l2) = (l1 ++ l2)%list.
Proof.
  unfold without. induction l1 as [|x l1 [IH1 IH2]]; [split; reflexivity|].
  split; [exact IH1|]. cbn [List.length app firstn]. cbn [skipn] in *. cbn [app].
  now rewrite IH2.
Qed.

Lemma without_insert (b : nat) (moved : Item) (copy : list Item) :
  b <= List.length copy ->
  nth_error (firstn b copy ++ moved :: skipn b copy) b = Some moved /\
  without b (firstn b copy ++ moved :: skipn b copy) = copy.
Proof.
  intro H.
  assert (L : List.length (firstn b copy) = b) by (rewrite length_firstn; lia).
  destruct (without_middle (firstn b copy) (skipn b copy) moved) as [N W].
  rewrite L, firstn_skipn in *. now split.
Qed.

(** [reorder] from a position of the list. *)
Lemma reorder_items_at (a : nat) (toIndex : Z) (l : list Item) (moved : Item) :
  nth_error l a = Some moved ->
  reorder_items (Z.of_nat a) toIndex l =
    Some (firstn (splice_start (List.length (without a l)) toIndex) (without a l)
            ++ moved :: skipn (splice_start (List.length (without a l)) toIndex) (without a l))%list.
Proof.
  intro E. unfold reorder_items.
  assert (A : a < List.length l) by (apply nth_error_Some; congruence).
  rewrite splice_start_nat by lia. rewrite E. reflexivity.
Qed.

Lemma splice_start_le (len : nat) (z : Z) : splice_start len z <= len.
Proof.
  unfold splice_start. destruct (Z.ltb_spec z 0); lia.
Qed.

(** X6.  [reorder] between two positions of the list: the item that
    was at [a] is at [b] afterwards, the other items keep their order,
    and the list has the same items and the same length. *)
Theorem reorder_moves (a b : nat) (l : list Item) :
  a < List.length l -> b < List.length l ->
  exists l',
    reorder_items (Z.of_nat a) (Z.of_nat b) l = Some l' /\
    nth_error l' b = nth_error l a /\
    without b l' = without a l /\
    List.length l' = List.length l /\
    Permutation l l'.
Proof.
  intros A B.
  destruct (nth_error l a) as [moved|] eqn:E; [|apply nth_error_None in E; lia].
  pose proof (reorder_items_at a (Z.of_nat b) l moved E) as R.
  pose proof (without_length a l A) as W.
  rewrite splice_start_nat in R by lia.
  eexists. split; [exact R|].
  destruct (without_insert b moved (without a l)) as [N O]; [lia|].
  repeat split.
  - exact N.
  - exact O.
  - now apply (reorder_items_length (Z.of_nat a) (Z.of_nat b)).
  - now apply (reorder_items_perm (Z.of_nat a) (Z.of_nat b)).
Qed.

(** X7.  Moving an item back undoes the move, and moving an item onto
    its own position changes nothing. *)
Theorem reorder_undo (a b : nat) (l : list Item) :
  a < List.length l -> b < List.length l ->
  (forall l', reorder_items (Z.of_nat a) (Z.of_nat b) l = Some l' ->
     reorder_items (Z.of_nat b) (Z.of_nat a) l' = Some l) /\
  reorder_items (Z.of_nat a) (Z.of_nat a) l = Some l.
Proof.
  intros A B.
  destruct (nth_error l a) as [moved|] eqn:E; [|apply nth_error_None in E; lia].
  pose proof (without_length a l A) as W.
  assert (back : (firstn a (without a l) ++ moved :: skipn a (without a l))%list = l).
  { unfold without. rewrite (nth_error_firstn_skipn l a moved E) at 5.
    set (l1 := firstn a l). set (l2 := skipn (S a) l).
    assert (L : List.length l1 = a) by (subst l1; rewrite length_firstn; lia).
    rewrite <- L. now rewrite firstn_exact, skipn_exact. }
  split.
  - intros l' R. rewrite (reorder_items_at a _ l moved E) in R.
    rewrite splice_start_nat in R by lia. injection R as <-.
    destruct (without_insert b moved (without a l)) as [N O]; [lia|].
    rewrite (reorder_items_at b _ _ moved N), O.
    rewrite splice_start_nat by lia. now rewrite back.
  - rewrite (reorder_items_at a _ l moved E).
    rewrite splice_start_nat by lia. now rewrite back.
Qed.

(** X8.  The bounds of [reorder].  It moves an item exactly when the
    list is not empty and [fromIndex] is below its length; a negative
    [fromIndex] counts from the end, stopping at the first item.  A
    [toIndex] at or past the last position puts the item last; zero, or
    a negative one reaching before the list, puts it first. *)
Theorem reorder_bounds (fromIndex toIndex : Z) (l : list Item) :
  (reorder_items fromIndex toIndex l = None <->
     l = [] \/ (Z.of_nat (List.length l) <= fromIndex)%Z) /\
  ((fromIndex < 0)%Z ->
     reorder_items fromIndex toIndex l =
     reorder_items (Z.max (Z.of_nat (List.length l) + fromIndex) 0) toIndex l) /\
  (forall a moved, nth_error l a = Some moved ->
     ((Z.of_nat (List.length l) - 1 <= toIndex)%Z ->
        reorder_items (Z.of_nat a) toIndex l = Some (without a l ++ [moved])%list) /\
     ((toIndex = 0 \/ toIndex <= 1 - Z.of_nat (List.length l))%Z ->
        reorder_items (Z.of_nat a) toIndex l = Some (moved :: without a l))).
Proof.
  split; [|split].
  - unfold reorder_items.
    destruct (nth_error l (splice_start (List.length l) fromIndex)) as [moved|] eqn:E.
    + split; [discriminate|]. intro H. exfalso.
      assert (S : splice_start (List.length l) fromIndex < List.length l)
        by (apply nth_error_Some; congruence).
      unfold splice_start in S. destruct H as [->|H]; [cbn in S; lia|].
      destruct (Z.ltb_spec fromIndex 0); lia.
    + split; [|reflexivity]. intros _. apply nth_error_None in E.
      unfold splice_start in E.
      destruct l as [|x l]; [now left|right].
      cbn [List.length] in *. destruct (Z.ltb_spec fromIndex 0); lia.
  - intro N. unfold reorder_items.
    assert (S : splice_start (List.length l) fromIndex =
                splice_start (List.length l) (Z.max (Z.of_nat (List.length l) + fromIndex) 0)).
    { unfold splice_start. destruct (Z.ltb_spec fromIndex 0) as [_|]; [|lia].
      destruct (Z.ltb_spec (Z.max (Z.of_nat (List.length l) + fromIndex) 0) 0); lia. }
    now rewrite S.
  - intros a moved E.
    assert (A : a < List.length l) by (apply nth_error_Some; congruence).
    pose proof (without_length a l A) as W.
    rewrite (reorder_items_at a toIndex l moved E). split; intro H.
    + assert (S : splice_start (List.length (without a l)) toIndex =
                  List.length (without a l)).
      { unfold splice_start. destruct (Z.ltb_spec toIndex 0); lia. }
      rewrite S, firstn_all, skipn_all. reflexivity.
    + assert (S : splice_start (List.length (without a l)) toIndex = 0).
      { unfold splice_start. destruct (Z.ltb_spec toIndex 0); lia. }
      rewrite S. reflexivity.
Qed.

(** ** The counters *)

Lemma map_flip_absent (target : string) (l : list Item) :
  Forall (fun i => id i <> JStr target) l -> map (flip target) l = l.
Proof.
  intro A. rewrite <- (map_id l) at 2. apply map_ext_Forall.
  revert A. apply Forall_impl. intros i N. unfold flip.
  apply strict_eq_string_false in N. now rewrite N.
Qed.

Lemma pending_toggle (target : string) (l : list Item) (i : Item) :
  ids_distinct l -> In i l -> id i = JStr target ->
  List.length (List.filter (fun j => negb (completed j)) (map (flip target) l))
    + (if completed i then 0 else 1) =
  List.length (List.filter (fun j => negb (completed j)) l)
    + (if completed i then 1 else 0).
Proof.
  unfold ids_distinct. induction l as [|x l IH]; intros D Hi E; [contradiction|].
  cbn in D. inversion D as [|? ? Nx Dl]; subst.
  destruct (JS.strict_eq_string (id x) target) eqn:X.
  - apply strict_eq_string_true in X.
    assert (i = x) as ->.
    { destruct Hi as [->|Hi]; [reflexivity|]. exfalso. apply Nx.
      rewrite X, <- E. now apply in_map. }
    assert (A : Forall (fun j => id j <> JStr target) l).
    { apply Forall_forall. intros j Hj C. apply Nx. rewrite X, <- C. now apply in_map. }
    cbn [map]. rewrite (map_flip_absent target l A). unfold flip.
    apply strict_eq_string_true in X. rewrite X. cbn [List.filter completed].
    destruct (completed x); cbn; lia.
  - assert (Hl : In i l).
    { destruct Hi as [<-|Hi]; [|exact Hi].
      apply strict_eq_string_false in X. contradiction. }
    specialize (IH Dl Hl E). cbn [map]. unfold flip at 1. rewrite X.
    cbn [List.filter]. destruct (completed x); cbn [negb List.length]; lia.
Qed.

(** X9.  With distinct ids, toggling the id of an item of the list
    moves the pending counter by exactly one: down when the item was
    pending, up when it was completed.  The total stays. *)
Theorem toggle_counts (target : string) (st : State) (i : Item) :
  ids_distinct (items st) -> In i (items st) -> id i = JStr target ->
  totalCount (toggleItem target st) = totalCount st /\
  (completed i = false -> S (pendingCount (toggleItem target st)) = pendingCount st) /\
  (completed i = true -> pendingCount (toggleItem target st) = S (pendingCount st)).
Proof.
  intros D Hi E. unfold totalCount, pendingCount. rewrite toggleItem_items.
  pose proof (pending_toggle target (items st) i D Hi E) as P.
  repeat split.
  - apply length_map.
  - intro C. rewrite C in P. lia.
  - intro C. rewrite C in P. lia.
Qed.

(** ** What an import brings in *)

Lemma mapM_normalize_counts (xs : list JValue) (n : nat) :
  List.length (fst (mapM normalize xs n)) = List.length xs /\
  map text (fst (mapM normalize xs n)) = map text_of xs /\
  map completed (fst (mapM normalize xs n)) =
    map (fun x => JS.truthy_opt (JS.prop "completed" x)) xs /\
  snd (mapM normalize xs n) =
    n + List.length (List.filter (fun x => Nat.eqb (List.length (given_id x)) 0) xs).
Proof.
  revert n. induction xs as [|x xs IH]; intro n.
  - cbn. repeat split. lia.
  - rewrite mapM_cons. cbn [fst snd List.length map List.filter].
    destruct (normalize_cases x n) as [(v & P & T & E)|[G E]]; rewrite E; cbn [fst snd].
    + unfold given_id at 1. rewrite P, T. cbn [List.length Nat.eqb].
      destruct (IH n) as (L & X & C & N). cbn [text completed].
      repeat split; congruence.
    + rewrite G. cbn [List.length Nat.eqb].
      destruct (IH (S n)) as (L & X & C & N). cbn [text completed List.length].
      repeat split; try congruence. rewrite N. lia.
Qed.

(** X10.  Importing an array gives one item per entry whose [text] is
    a string, never more items than entries, with the texts of the
    entries in their order; it draws one id for each kept entry that
    has no usable id and none for the others; and nothing of the former
    list enters the result. *)
Theorem import_counts (payload : string) (parsed : list JValue) (st : State) (n : nat) :
  JSON_parse payload = Some (JArr parsed) ->
  let kept := List.filter keep parsed in
  let r := importSnapshot payload st n in
  List.length (items (fst (fst r))) = List.length kept /\
  List.length (items (fst (fst r))) <= List.length parsed /\
  map text (items (fst (fst r))) = map text_of kept /\
  map completed (items (fst (fst r))) =
    map (fun x => JS.truthy_opt (JS.prop "completed" x)) kept /\
  snd r = n + List.length (List.filter (fun x => Nat.eqb (List.length (given_id x)) 0) kept) /\
  forall st2, items (fst (fst (importSnapshot payload st2 n))) = items (fst (fst r)).
Proof.
  intro P. cbn zeta.
  assert (I : forall s, items (fst (fst (importSnapshot payload s n))) =
                        fst (mapM normalize (List.filter keep parsed) n) /\
                        snd (importSnapshot payload s n) =
                        snd (mapM normalize (List.filter keep parsed) n)).
  { intro s. destruct (import_items payload s n) as [(parsed' & P' & L & N)|(C & _)].
    - rewrite P in P'. injection P' as <-. now split.
    - now elim (C parsed). }
  destruct (I st) as [-> ->].
  destruct (mapM_normalize_counts (List.filter keep parsed) n) as (L & X & C & N).
  repeat split; try assumption.
  - rewrite L. apply filter_length_le.
  - intro st2. now destruct (I st2) as [-> _].
Qed.

(** ** Usable ids *)

Lemma mapM_normalize_usable (xs : list JValue) (n : nat) :
  (forall k, randomId k <> EmptyString) ->
  ids_usable (fst (mapM normalize xs n)).
Proof.
  intro G. revert n. induction xs as [|x xs IH]; intro n; [constructor|].
  rewrite mapM_cons. cbn [fst]. constructor; [|apply IH].
  destruct (normalize_cases x n) as [(v & _ & T & E)|[_ E]]; rewrite E; cbn.
  - exact T.
  - destruct (String.eqb_spec (randomId n) EmptyString) as [C|_]; [now elim (G n)|reflexivity].
Qed.

Lemma exec_ids_usable (op : Op) (st st' : State) (n n' : nat) :
  (forall k, randomId k <> EmptyString) ->
  exec op st n = Some (st', n') ->
  ids_usable (items st) -> ids_usable (items st').
Proof.
  unfold ids_usable. intros G E I.
  assert (T : forall k, JS.truthy (JStr (randomId k)) = true).
  { intro k. cbn. destruct (String.eqb_spec (randomId k) EmptyString) as [C|_];
      [now elim (G k)|reflexivity]. }
  destruct op as [t|m|target|target|target newText| |a b|payload].
  - cbn [exec] in E. rewrite add_result in E.
    destruct (String.eqb (JS.trim t) EmptyString); injection E as <- _; [exact I|].
    constructor; [apply T|exact I].
  - cbn [exec] in E. injection E as E.
    destruct (addBulk_result m st n) as [L _]. rewrite E in L. cbn [fst] in L. rewrite L.
    apply Forall_app. split; [|exact I].
    assert (H : Forall (fun v => JS.truthy v = true) (map id (bulk_items n (bulk_lines m)))).
    { rewrite bulk_items_id. apply Forall_forall. intros v H.
      apply in_map_iff in H. destruct H as (k & <- & _). apply T. }
    exact (proj1 (Forall_map id (fun v => JS.truthy v = true) _) H).
  - cbn [exec] in E. injection E as <- _. cbn [removeItem items setItems].
    apply Forall_forall. intros i H. apply filter_In in H.
    now apply (proj1 (Forall_forall _ _) I).
  - cbn [exec] in E. injection E as <- _. rewrite toggleItem_items.
    apply (Forall_map (flip target) (fun i => JS.truthy (id i) = true)).
    revert I. apply Forall_impl. intros i H. now rewrite flip_id.
  - cbn [exec] in E. injection E as <- _.
    destruct (String.eqb_spec target EmptyString) as [Z|Z]; [subst; exact I|].
    rewrite (edit_items _ _ _ Z). destruct (String.eqb (JS.trim newText) EmptyString).
    + apply Forall_forall. intros i H. apply filter_In in H.
      now apply (proj1 (Forall_forall _ _) I).
    + apply (Forall_map (retext target (JS.trim newText)) (fun i => JS.truthy (id i) = true)).
      revert I. apply Forall_impl. intros i H. now rewrite retext_id.
  - cbn [exec] in E. injection E as <- _. cbn [clearCompleted items setItems].
    apply Forall_forall. intros i H. apply filter_In in H.
    now apply (proj1 (Forall_forall _ _) I).
  - apply exec_reorder in E. destruct E as [P _]. now rewrite <- P.
  - cbn [exec] in E.
    destruct (import_items payload st n) as [(parsed & P & L & _)|(_ & L & _)];
      destruct (importSnapshot payload st n) as [[st1 al] n1]; cbn [fst snd] in *;
      injection E as <- _.
    + rewrite L. now apply mapM_normalize_usable.
    + now rewrite L.
Qed.

(** X11.  With an id source that never returns the empty string, every
    item of every state the operations reach, imports of any payload
    included, has a usable id: no string id is empty, and the state
    comes back from an export followed by an import whenever
    [JSON.parse] reads back what [JSON.stringify] wrote. *)
Theorem reachable_ids_usable (st : State) (n : nat) :
  (forall k, randomId k <> EmptyString) ->
  reachable st n ->
  ids_usable (items st) /\
  (forall i s, In i (items st) -> id i = JStr s -> s <> EmptyString) /\
  (JSON_parse (exportJSON st) = Some (JArr (map item_value (items st))) ->
     importSnapshot (exportJSON st) st n = ((st, None), n)).
Proof.
  intros G R.
  assert (U : ids_usable (items st)).
  { induction R as [|op st n st' n' _ IH _ E]; [constructor|].
    exact (exec_ids_usable op st st' n n' G E IH). }
  split; [exact U|]. split.
  - intros i s Hi E ->. apply (proj1 (Forall_forall _ _) U) in Hi.
    rewrite E in Hi. discriminate.
  - intro P. rewrite (roundtrip_when_read_back st st n U P). now destruct st.
Qed.

(** ** Trimmed texts *)

Lemma trimEnd_cons (c : ascii) (r : string) :
  JS.trimEnd (String c r) =
    match JS.trimEnd r with
    | EmptyString => if JS.is_space c then EmptyString else String c EmptyString
    | r' => String c r'
    end.
Proof. reflexivity. Qed.

Lemma trimEnd_idem (s : string) : JS.trimEnd (JS.trimEnd s) = JS.trimEnd s.
Proof.
  induction s as [|c r IH]; [reflexivity|].
  rewrite (trimEnd_cons c r). destruct (JS.trimEnd r) as [|d u] eqn:E.
  - destruct (JS.is_space c) eqn:S; [reflexivity|].
    rewrite trimEnd_cons. cbn [JS.trimEnd]. now rewrite S.
  - rewrite trimEnd_cons, IH. reflexivity.
Qed.

Lemma trimStart_head (s : string) :
  JS.trimStart s = EmptyString \/
  exists c r, JS.trimStart s = String c r /\ JS.is_space c = false.
Proof.
  induction s as [|c r IH]; [now left|].
  cbn [JS.trimStart]. destruct (JS.is_space c) eqn:S; [exact IH|].
  right. now exists c, r.
Qed.

Lemma trimEnd_head (c : ascii) (r : string) :
  JS.is_space c = false -> exists r', JS.trimEnd (String c r) = String c r'.
Proof.
  intro S. rewrite trimEnd_cons, S. destruct (JS.trimEnd r); eexists; reflexivity.
Qed.

Lemma trim_idem (s : string) : JS.trim (JS.trim s) = JS.trim s.
Proof.
  unfold JS.trim at 1 3. destruct (trimStart_head s) as [E|(c & r & E & S)].
  - unfold JS.trim. rewrite E. reflexivity.
  - unfold JS.trim. rewrite E.
    destruct (trimEnd_head c r S) as [r' T].
    assert (H : JS.trimStart (JS.trimEnd (String c r)) = JS.trimEnd (String c r)).
    { rewrite T. cbn [JS.trimStart]. now rewrite S. }
    rewrite H. apply trimEnd_idem.
Qed.

(** Each operation keeps a property of the texts that trimmed,
    non-empty input has and that the kept entries of its import have. *)
Lemma exec_texts (P : string -> Prop) (op : Op) (st st' : State) (n n' : nat) :
  (forall t, JS.trim t <> EmptyString -> P (JS.trim t)) ->
  match op with
  | ImportSnapshot payload =>
      forall parsed, JSON_parse payload = Some (JArr parsed) ->
        Forall (fun x => P (text_of x)) (List.filter keep parsed)
  | _ => True
  end ->
  exec op st n = Some (st', n') ->
  Forall (fun i => P (text i)) (items st) -> Forall (fun i => P (text i)) (items st').
Proof.
  intros HP S E I. destruct op as [t|m|target|target|target newText| |a b|payload].
  - cbn [exec] in E. rewrite add_result in E.
    destruct (String.eqb_spec (JS.trim t) EmptyString) as [Z|Z]; injection E as <- _.
    + exact I.
    + constructor; [now apply HP|exact I].
  - cbn [exec] in E. injection E as E.
    destruct (addBulk_result m st n) as [L _]. rewrite E in L. cbn [fst] in L. rewrite L.
    apply Forall_app. split; [|exact I].
    assert (H : Forall P (map text (bulk_items n (bulk_lines m)))).
    { rewrite bulk_items_text. apply Forall_forall. intros line H.
      unfold bulk_lines in H. apply filter_In in H. destruct H as [H N].
      apply in_map_iff in H. destruct H as (x & <- & _). apply HP.
      intro C. rewrite C in N. discriminate. }
    exact (proj1 (Forall_map text P _) H).
  - cbn [exec] in E. injection E as <- _. cbn [removeItem items setItems].
    apply Forall_forall. intros i H. apply filter_In in H.
    now apply (proj1 (Forall_forall _ _) I).
  - cbn [exec] in E. injection E as <- _. rewrite toggleItem_items.
    apply (Forall_map (flip target) (fun i => P (text i))).
    revert I. apply Forall_impl. intros i H. now rewrite flip_text.
  - cbn [exec] in E. injection E as <- _.
    destruct (String.eqb_spec target EmptyString) as [Z|Z]; [subst; exact I|].
    rewrite (edit_items _ _ _ Z).
    destruct (String.eqb_spec (JS.trim newText) EmptyString) as [T|T].
    + apply Forall_forall. intros i H. apply filter_In in H.
      now apply (proj1 (Forall_forall _ _) I).
    + apply (Forall_map (retext target (JS.trim newText)) (fun i => P (text i))).
      revert I. apply Forall_impl. intros i H. unfold retext.
      destruct (JS.strict_eq_string (id i) target); [now apply HP|exact H].
  - cbn [exec] in E. injection E as <- _. cbn [clearCompleted items setItems].
    apply Forall_forall. intros i H. apply filter_In in H.
    now apply (proj1 (Forall_forall _ _) I).
  - apply exec_reorder in E. destruct E as [Q _]. now rewrite <- Q.
  - cbn [exec] in E.
    destruct (import_items payload st n) as [(parsed & Q & L & _)|(_ & L & _)];
      destruct (importSnapshot payload st n) as [[st1 al] n1]; cbn [fst snd] in *;
      injection E as <- _.
    + rewrite L. specialize (S parsed Q). clear L Q.
      revert n. induction S as [|x xs Hx _ IH]; intro n; [constructor|].
      rewrite mapM_cons. cbn [fst]. constructor; [|apply IH].
      destruct (normalize_cases x n) as [(v & _ & _ & X)|[_ X]]; now rewrite X.
    + now rewrite L.
Qed.

(** X12.  Every text the component itself writes is trimmed: from the
    empty list, through every operation and every import whose kept
    entries have trimmed texts, each item's text has no white space at
    either end ([trim] gives it back). *)
Theorem reachable_texts_trimmed (st : State) (n : nat) :
  reachable_by trim_safe st n -> texts_trimmed (items st).
Proof.
  unfold texts_trimmed. induction 1 as [|op st n st' n' _ IH S E]; [constructor|].
  apply (exec_texts (fun t => JS.trim t = t) op st st' n n').
  - intros t _. apply trim_idem.
  - exact S.
  - exact E.
  - exact IH.
Qed.

(** ** Adding one line *)

Lemma split_lines_single (t : string) :
  JS.has_lf t = false -> JS.split_lines t = [t].
Proof.
  induction t as [|c r IH]; [reflexivity|].
  cbn [JS.has_lf]. intro H. apply orb_false_iff in H. destruct H as [C R].
  cbn [JS.split_lines]. rewrite C. destruct r as [|d r'].
  - reflexivity.
  - cbn [JS.has_lf] in R. assert (D : JS.is_lf d = false).
    { apply orb_false_iff in R. apply R. }
    rewrite D, andb_false_r. rewrite (IH R). reflexivity.
Qed.

(** X13.  For a text without a line feed, the bulk field does what the
    single field does: the same list and the same id drawn, or nothing
    when the text is blank. *)
Theorem addBulk_single_line (t : string) (st : State) (n : nat) :
  JS.has_lf t = false ->
  items (fst (addBulk t st n)) = items (fst (add t st n)) /\
  snd (addBulk t st n) = snd (add t st n).
Proof.
  intro H. destruct (addBulk_result t st n) as [L N]. rewrite L, N, add_result.
  unfold bulk_lines. rewrite (split_lines_single t H). cbn [map List.filter].
  destruct (String.eqb_spec (JS.trim t) EmptyString) as [E|E].
  - rewrite E. cbn. split; [reflexivity|lia].
  - destruct (JS.trim t) as [|c r] eqn:T; [now elim E|].
    cbn. split; [reflexivity|lia].
Qed.

(** ** Editing through the editor *)

Lemma map_retext_same (s : string) (l : list Item) (item : Item) :
  ids_distinct l -> In item l -> id item = JStr s ->
  map (retext s (text item)) l = l.
Proof.
  unfold ids_distinct. intros D Hi E.
  rewrite <- (map_id l) at 2. apply map_ext_in. intros j Hj. unfold retext.
  destruct (JS.strict_eq_string (id j) s) eqn:X; [|reflexivity].
  apply strict_eq_string_true in X.
  assert (j = item) as ->.
  { clear - D Hi Hj E X. induction l as [|x l IH]; [contradiction|].
    cbn in D. inversion D as [|? ? Nx Dl]; subst.
    destruct Hi as [->|Hi], Hj as [->|Hj]; auto.
    - exfalso. apply Nx. rewrite E, <- X. now apply in_map.
    - exfalso. apply Nx. rewrite X, <- E. now apply in_map. }
  now destruct item.
Qed.

(** X14.  Opening the editor on an item stores its id and text.
    Saving the typed text is [edit] on that id; saving without typing
    leaves the list as it is when ids are distinct and the item's text
    is trimmed and not empty; cancelling leaves it as it is in any
    case.  Both close the editor. *)
Theorem startEdit_spec (item : Item) (s : string) (st : State) :
  id item = JStr s -> s <> EmptyString ->
  exists st1,
    startEdit item st = Some st1 /\
    editingId st1 = Some s /\ editingText st1 = text item /\ items st1 = items st /\
    (forall newText, saveEdit (setEditingText newText st1) = edit s newText st) /\
    (ids_distinct (items st) -> In item (items st) ->
     JS.trim (text item) = text item -> text item <> EmptyString ->
     items (saveEdit st1) = items st) /\
    editingId (saveEdit st1) = None /\
    items (cancelEdit st1) = items st /\ editingId (cancelEdit st1) = None.
Proof.
  intros E N. unfold startEdit. rewrite E. eexists. split; [reflexivity|].
  assert (X : forall newText,
             saveEdit (setEditingText newText
                         (setEditingText (text item) (setEditingId (Some s) st)))
             = edit s newText st) by reflexivity.
  assert (Y : saveEdit (setEditingText (text item) (setEditingId (Some s) st))
              = edit s (text item) st) by reflexivity.
  split; [reflexivity|]. split; [reflexivity|]. split; [reflexivity|].
  split; [exact X|]. split; [|split; [|split; reflexivity]].
  - intros D Hi T NE. rewrite Y, (edit_items _ _ _ N), T.
    destruct (String.eqb_spec (text item) EmptyString) as [C|_]; [contradiction|].
    now apply map_retext_same.
  - rewrite Y, (edit_state _ _ _ N). reflexivity.
Qed.

(** X18.  [edit] with a text that is not blank, on a non-empty id,
    keeps the length of the list, every id and every completed flag,
    and every item of another id where it was; the items of that id get
    the trimmed text; the other cells keep their values and the editor
    closes. *)
Theorem edit_frame (target newText : string) (st : State) :
  target <> EmptyString -> JS.trim newText <> EmptyString ->
  let st' := edit target newText st in
  List.length (items st') = List.length (items st) /\
  map id (items st') = map id (items st) /\
  map completed (items st') = map completed (items st) /\
  (forall k i, nth_error (items st) k = Some i -> id i <> JStr target ->
     nth_error (items st') k = Some i) /\
  (forall k i, nth_error (items st) k = Some i -> id i = JStr target ->
     nth_error (items st') k = Some (mkItem (id i) (JS.trim newText) (completed i))) /\
  input st' = input st /\ bulkInput st' = bulkInput st /\ filter st' = filter st /\
  editingId st' = None /\ editingText st' = EmptyString.
Proof.
  intros T N. cbn zeta. rewrite (edit_state _ _ _ T).
  destruct (String.eqb_spec (JS.trim newText) EmptyString) as [C|_]; [contradiction|].
  cbn [items input bulkInput filter editingId editingText].
  split; [apply length_map|].
  split; [rewrite map_map; apply map_ext, retext_id|].
  split.
  { rewrite map_map. apply map_ext. intro i. unfold retext.
    now destruct (JS.strict_eq_string (id i) target). }
  split.
  { intros k i H D. rewrite nth_error_map, H. cbn. unfold retext.
    apply strict_eq_string_false in D. now rewrite D. }
  split.
  { intros k i H D. rewrite nth_error_map, H. cbn. unfold retext.
    apply strict_eq_string_true in D. now rewrite D. }
  repeat split.
Qed.

(** ** The id of a new item *)

(** X15.  With an id source that never repeats, in a state reached
    through operations whose imports brought only pairwise distinct ids
    that the source does not hand out afterwards, the id drawn by [add]
    addresses the new item and no other: removing it gives back the
    former list, and toggling it completes the new item only. *)
Theorem add_then_remove (t : string) (st : State) (n : nat) :
  (forall a b, randomId a = randomId b -> a = b) ->
  reachable_by ids_safe st n ->
  items (removeItem (randomId n) (fst (add t st n))) = items st /\
  (JS.trim t <> EmptyString ->
     items (toggleItem (randomId n) (fst (add t st n))) =
       mkItem (JStr (randomId n)) (JS.trim t) true :: items st).
Proof.
  intros G R. destruct (reachable_ids G st n R) as [_ F].
  assert (A : Forall (fun i => id i <> JStr (randomId n)) (items st)).
  { apply Forall_forall. intros i Hi. apply (F (id i) n); [now apply in_map|lia]. }
  assert (K : List.filter (fun i => negb (JS.strict_eq_string (id i) (randomId n))) (items st)
              = items st).
  { apply filter_all. revert A. apply Forall_impl. intros i N.
    apply strict_eq_string_false in N. now rewrite N. }
  rewrite add_result. destruct (String.eqb_spec (JS.trim t) EmptyString) as [E|E].
  - split; [exact K|]. intro C. contradiction.
  - split.
    + cbn [fst removeItem setItems setInput items List.filter id JS.strict_eq_string].
      rewrite String.eqb_refl. exact K.
    + intros _. rewrite toggleItem_items.
      cbn [fst setItems setInput items map]. unfold flip at 1.
      cbn [id JS.strict_eq_string text completed negb]. rewrite String.eqb_refl.
      now rewrite (map_flip_absent _ _ A).
Qed.

(** ** What the component starts with *)

(** X16.  The component starts with the empty list when the store
    throws, holds nothing under the key, holds the empty text, or holds
    a text [JSON.parse] rejects. *)
Theorem initialItems_defaults (store : Storage) :
  store = Unavailable \/ store = Absent \/ store = Stored EmptyString \/
  (exists raw, store = Stored raw /\ JSON_parse raw = None) ->
  initialItems store = JArr [].
Proof.
  intros [->|[->|[->|(raw & -> & P)]]].
  - reflexivity.
  - reflexivity.
  - reflexivity.
  - unfold initialItems. rewrite P. now destruct (String.eqb raw EmptyString).
Qed.

(** Whenever [JSON.parse] reads back what the effect stored, the next
    start finds the items of the last state. *)
Lemma load_when_read_back (st : State) (raw : string) :
  saveItems st = Stored raw ->
  raw <> EmptyString ->
  JSON_parse raw = Some (JArr (map item_value (items st))) ->
  initialItems (saveItems st) = JArr (map item_value (items st)).
Proof.
  intros S N P. rewrite S. now apply initialItems_parsed.
Qed.

End Checklist.

(** ** The [JSON] model reads back the items it writes *)

Module JSONFacts.
Import JSON.

Lemma append_assoc (a b c : string) : (a ++ b) ++ c = a ++ (b ++ c).
Proof. induction a as [|x a IH]; cbn; [reflexivity|now rewrite IH]. Qed.

Lemma string_body_escape (c : ascii) (X : string) :
  string_body (escape c ++ X) = after c (string_body X).
Proof.
  destruct c as [b0 b1 b2 b3 b4 b5 b6 b7].
  destruct b0, b1, b2, b3, b4, b5, b6, b7; reflexivity.
Qed.

Lemma string_body_quote (s X : string) :
  string_body (escape_all s ++ String dquote X) = Some (s, X).
Proof.
  induction s as [|c s IH].
  - reflexivity.
  - cbn [escape_all]. rewrite append_assoc, string_body_escape, IH. reflexivity.
Qed.


Lemma quote_app (s X : string) :
  quote s ++ X = String dquote (escape_all s ++ String dquote X).
Proof. unfold quote. cbn [append]. now rewrite append_assoc. Qed.

Lemma skip_ws_spaces (n : nat) (X : string) : skip_ws (spaces n ++ X) = skip_ws X.
Proof. induction n as [|n IH]; [reflexivity|exact IH]. Qed.

Lemma skip_ws_nl (n : nat) (X : string) : skip_ws (nl ++ spaces n ++ X) = skip_ws X.
Proof. cbn [nl append skip_ws]. change (is_ws "010") with true. cbn iota. apply skip_ws_spaces. Qed.

(** A member [key: value] of an object whose value is a string. *)
Lemma member_string (f : nat) (s X : string) :
  value (S f) (String " " (quote s ++ X)) = Some (JStr s, X).
Proof.
  rewrite quote_app. cbn [value skip_ws]. change (is_ws " ") with true. cbn iota.
  cbn [skip_ws]. change (is_ws dquote) with false. cbn iota.
  unfold dquote at 1. cbn iota. unfold scalar. 
  change (Ascii.eqb "034" dquote) with true. cbn iota.
  now rewrite string_body_quote.
Qed.


Lemma concat_cons (sep x : string) (y : string) (rest : list string) :
  String.concat sep (x :: y :: rest) = x ++ sep ++ String.concat sep (y :: rest).
Proof. reflexivity. Qed.

Lemma skip_ws_idem (s : string) : skip_ws (skip_ws s) = skip_ws s.
Proof.
  induction s as [|c s IH]; [reflexivity|].
  cbn [skip_ws]. destruct (is_ws c) eqn:E; [exact IH|].
  cbn [skip_ws]. now rewrite E.
Qed.

Lemma value_skip_ws (f : nat) (s : string) : value f s = value f (skip_ws s).
Proof. destruct f; [reflexivity|]. cbn [value]. now rewrite skip_ws_idem. Qed.


Lemma skip_ws_quote (n : nat) (k X : string) :
  skip_ws (nl ++ spaces n ++ quote k ++ X) =
  String dquote (escape_all k ++ String dquote X).
Proof. rewrite skip_ws_nl, quote_app. reflexivity. Qed.

(** One member of an object, followed by a comma or by the closing
    brace. *)
Lemma members_next (f n : nat) (k R Y : string) (v : JValue)
      (acc : list (string * JValue)) :
  value f R = Some (v, String "," Y) ->
  members (S f) (nl ++ spaces n ++ quote k ++ String ":" R) acc =
  members f Y ((k, v) :: acc).
Proof.
  intro V. cbn [members]. rewrite skip_ws_quote.
  change (Ascii.eqb dquote dquote) with true. cbn iota.
  rewrite string_body_quote. cbn [skip_ws]. change (is_ws ":") with false. cbn iota.
  rewrite V. reflexivity.
Qed.

Lemma members_last (f n m : nat) (k R X : string) (v : JValue)
      (acc : list (string * JValue)) :
  value f R = Some (v, nl ++ spaces m ++ String "}" X) ->
  members (S f) (nl ++ spaces n ++ quote k ++ String ":" R) acc =
  Some (JObj (rev ((k, v) :: acc)), X).
Proof.
  intro V. cbn [members]. rewrite skip_ws_quote.
  change (Ascii.eqb dquote dquote) with true. cbn iota.
  rewrite string_body_quote. cbn [skip_ws]. change (is_ws ":") with false. cbn iota.
  rewrite V, skip_ws_nl. reflexivity.
Qed.

Lemma member_bool (f : nat) (b : bool) (X : string) :
  value (S f) (String " " ((if b then "true" else "false") ++ X)) = Some (JBool b, X).
Proof. destruct b; reflexivity. Qed.

(** An object with the three members of an item is read back. *)
Lemma value_item (f ind : nat) (s t : string) (b : bool) (X : string) :
  value (5 + f)
    (write ind (JObj [("id", JStr s); ("text", JStr t); ("completed", JBool b)]) ++ X) =
  Some (JObj [("id", JStr s); ("text", JStr t); ("completed", JBool b)], X).
Proof.
  cbn [write map fst snd String.concat].
  rewrite !append_assoc. cbn [append].
  cbn [Nat.add value]. cbn [skip_ws]. change (is_ws "{") with false. cbn iota.
  rewrite skip_ws_quote. unfold dquote at 1. cbn iota.
  rewrite (members_next _ _ _ _ _ (JStr s) [] (member_string _ s _)).
  rewrite (members_next _ _ _ _ _ (JStr t) _ (member_string _ t _)).
  rewrite (members_last _ _ ind _ _ X (JBool b) _ (member_bool _ b _)).
  reflexivity.
Qed.



Lemma value_item_ws (f n ind : nat) (s t : string) (b : bool) (X : string) :
  value (5 + f)
    (nl ++ spaces n ++
     write ind (JObj [("id", JStr s); ("text", JStr t); ("completed", JBool b)]) ++ X) =
  Some (JObj [("id", JStr s); ("text", JStr t); ("completed", JBool b)], X).
Proof.
  rewrite value_skip_ws, skip_ws_nl, <- value_skip_ws. apply value_item.
Qed.

Lemma elements_next (f : nat) (s Y : string) (v : JValue) (acc : list JValue) :
  value f s = Some (v, String "," Y) ->
  elements (S f) s acc = elements f Y (v :: acc).
Proof. intro V. cbn [elements]. rewrite V. reflexivity. Qed.

Lemma elements_last (f : nat) (s X : string) (v : JValue) (acc : list JValue) :
  value f s = Some (v, nl ++ String "]" X) ->
  elements (S f) s acc = Some (JArr (rev (v :: acc)), X).
Proof. intro V. cbn [elements]. rewrite V. reflexivity. Qed.

Lemma item_value_string (i : Item) (s : string) :
  id i = JStr s ->
  item_value i = JObj [("id", JStr s); ("text", JStr (text i)); ("completed", JBool (completed i))].
Proof. intro E. unfold item_value. now rewrite E. Qed.

(** The elements of a non-empty array of items, up to the closing
    bracket. *)
Lemma elements_items (l : list Item) :
  Forall (fun i => exists s, id i = JStr s) l ->
  forall (i0 : Item) (f : nat) (acc : list JValue) (X : string),
    (exists s, id i0 = JStr s) ->
    elements (S (5 + (List.length l + f)))
      (nl ++ spaces 2 ++
       String.concat ("," ++ nl ++ spaces 2) (map (write 2) (map item_value (i0 :: l)))
       ++ nl ++ String "]" X) acc =
    Some (JArr (rev acc ++ map item_value (i0 :: l)), X).
Proof.
  induction 1 as [|i1 l H1 _ IH]; intros i0 f acc X [s0 E0].
  - cbn [map String.concat List.length].
    rewrite (item_value_string i0 s0 E0).
    rewrite (elements_last _ _ X _ acc (value_item_ws _ 2 2 s0 _ _ _)).
    reflexivity.
  - cbn [map]. rewrite concat_cons. cbn [List.length].
    rewrite (item_value_string i0 s0 E0) at 1.
    rewrite !append_assoc. cbn [append].
    rewrite (elements_next _ _ _ _ acc (value_item_ws _ 2 2 s0 _ _ _)).
    replace (5 + (S (List.length l) + f)) with (S (5 + (List.length l + f))) by lia.
    specialize (IH i1 f (item_value i0 :: acc) X H1). cbn [map] in IH.
    rewrite (item_value_string i0 s0 E0) in IH at 1.
    refine (eq_trans IH _). cbn [rev]. rewrite <- app_assoc. reflexivity.
Qed.


Lemma length_append (a b : string) :
  String.length (a ++ b) = String.length a + String.length b.
Proof. induction a as [|c a IH]; cbn; [reflexivity|now rewrite IH]. Qed.

Lemma length_concat_items (sep : string) (l : list Item) :
  List.length l <= String.length (String.concat sep (map (write 2) (map item_value l))).
Proof.
  induction l as [|i [|j l] IH].
  - cbn. lia.
  - cbn [map String.concat List.length]. unfold item_value. cbn [write map]. cbn. lia.
  - cbn [map]. rewrite concat_cons, !length_append. cbn [map List.length] in IH |- *.
    assert (1 <= String.length (write 2 (item_value i))) by (cbn; lia). lia.
Qed.

Lemma value_open (f : nat) (body R : string) :
  skip_ws body = String "{" R ->
  value (S f) (String "[" body) = elements f body [].
Proof.
  intro E. cbn [value skip_ws]. change (is_ws "[") with false. cbn iota.
  rewrite E. reflexivity.
Qed.

Lemma items_text_head (sep Y : string) (i : Item) (rest : list string) :
  exists R, String.concat sep (write 2 (item_value i) :: rest) ++ Y = String "{" R.
Proof.
  destruct rest as [|y rest]; unfold item_value; cbn [String.concat write map append];
    eexists; reflexivity.
Qed.

(** [parse] reads back the text [stringify] writes for a list of items
    whose ids are strings. *)
Lemma parse_stringify_items (l : list Item) :
  Forall (fun i => exists s, id i = JStr s) l ->
  parse (stringify (JArr (map item_value l))) = Some (JArr (map item_value l)).
Proof.
  intro H. destruct H as [|i0 l H0 H]; [reflexivity|].
  unfold parse, stringify.
  set (txt := write 0 (JArr (map item_value (i0 :: l)))).
  assert (L : 7 + List.length l <= 2 * String.length txt + 2).
  { pose proof (length_concat_items ("," ++ nl ++ spaces 2) (i0 :: l)) as B.
    subst txt. cbn [map write Nat.add]. cbn [map List.length] in B.
    rewrite !length_append.
    remember (String.length (String.concat _ _)) as C. cbn [String.length nl spaces]. lia. }
  destruct (Nat.le_exists_sub _ _ L) as [f [E _]]. rewrite E.
  replace (f + (7 + List.length l)) with (S (S (5 + (List.length l + f)))) by lia.
  subst txt. clear E L.
  pose proof (elements_items l H i0 f [] EmptyString H0) as EI.
  destruct (items_text_head ("," ++ nl ++ spaces 2) (nl ++ "]") i0
              (map (write 2) (map item_value l))) as [R ER].
  cbn [map write Nat.add append].
  rewrite (value_open _ _ R).
  - cbn [map] in EI.
    lazymatch type of EI with
    | ?lhs = _ =>
        match goal with
        | |- context C [elements ?a ?b ?c] => let g := context C [lhs] in change g
        end
    end.
    rewrite EI. reflexivity.
  - rewrite skip_ws_nl. exact (f_equal skip_ws ER).
Qed.

End JSONFacts.

(** ** The [JSON] model reads back the items it stores *)

Module JSONFlat.
Import JSON.

Lemma value_string_flat (f : nat) (s X : string) :
  value (S f) (quote s ++ X) = Some (JStr s, X).
Proof.
  rewrite JSONFacts.quote_app. cbn [value skip_ws]. change (is_ws dquote) with false.
  cbn iota. unfold dquote at 1. cbn iota. unfold scalar.
  change (Ascii.eqb "034" dquote) with true. cbn iota.
  now rewrite JSONFacts.string_body_quote.
Qed.

Lemma value_bool_flat (f : nat) (b : bool) (X : string) :
  value (S f) ((if b then "true" else "false") ++ X) = Some (JBool b, X).
Proof. destruct b; reflexivity. Qed.

Lemma members_key_flat (f : nat) (k R : string) (acc : list (string * JValue)) :
  members (S f) (quote k ++ String ":" R) acc =
    match value f R with
    | Some (v, r3) =>
        match skip_ws r3 with
        | String "," r4 => members f r4 ((k, v) :: acc)
        | String "}" r4 => Some (JObj (rev ((k, v) :: acc)), r4)
        | _ => None
        end
    | None => None
    end.
Proof.
  rewrite JSONFacts.quote_app. cbn [members skip_ws]. change (is_ws dquote) with false.
  cbn iota. change (Ascii.eqb dquote dquote) with true. cbn iota.
  rewrite JSONFacts.string_body_quote. cbn [skip_ws]. change (is_ws ":") with false.
  cbn iota. reflexivity.
Qed.

(** An object with the three members of an item is read back. *)
Lemma value_item_flat (f : nat) (s t : string) (b : bool) (X : string) :
  value (5 + f)
    (compact (JObj [("id", JStr s); ("text", JStr t); ("completed", JBool b)]) ++ X) =
  Some (JObj [("id", JStr s); ("text", JStr t); ("completed", JBool b)], X).
Proof.
  cbn [compact map fst snd String.concat].
  rewrite !JSONFacts.append_assoc. cbn [append].
  cbn [Nat.add value]. cbn [skip_ws]. change (is_ws "{") with false. cbn iota.
  rewrite (JSONFacts.quote_app "id") at 1. cbn [skip_ws]. change (is_ws dquote) with false.
  cbn iota. unfold dquote at 1. cbn iota.
  rewrite members_key_flat, value_string_flat. cbn [skip_ws]. change (is_ws ",") with false.
  cbn iota.
  rewrite members_key_flat, value_string_flat. cbn [skip_ws]. change (is_ws ",") with false.
  cbn iota.
  rewrite members_key_flat, value_bool_flat. cbn [skip_ws]. change (is_ws "}") with false.
  cbn iota. reflexivity.
Qed.

Lemma elements_last_flat (f : nat) (s X : string) (v : JValue) (acc : list JValue) :
  value f s = Some (v, String "]" X) ->
  elements (S f) s acc = Some (JArr (rev (v :: acc)), X).
Proof. intro V. cbn [elements]. rewrite V. reflexivity. Qed.

Lemma elements_items_flat (l : list Item) :
  Forall (fun i => exists s, id i = JStr s) l ->
  forall (i0 : Item) (f : nat) (acc : list JValue) (X : string),
    (exists s, id i0 = JStr s) ->
    elements (S (5 + (List.length l + f)))
      (String.concat "," (map compact (map item_value (i0 :: l))) ++ String "]" X) acc =
    Some (JArr (rev acc ++ map item_value (i0 :: l)), X).
Proof.
  induction 1 as [|i1 l H1 _ IH]; intros i0 f acc X [s0 E0].
  - cbn [map String.concat List.length].
    rewrite (JSONFacts.item_value_string i0 s0 E0).
    rewrite (elements_last_flat _ _ X _ acc (value_item_flat _ s0 _ _ _)).
    reflexivity.
  - cbn [map]. rewrite JSONFacts.concat_cons. cbn [List.length].
    rewrite (JSONFacts.item_value_string i0 s0 E0) at 1.
    rewrite !JSONFacts.append_assoc. cbn [append].
    rewrite (JSONFacts.elements_next _ _ _ _ acc (value_item_flat _ s0 _ _ _)).
    replace (5 + (S (List.length l) + f)) with (S (5 + (List.length l + f))) by lia.
    specialize (IH i1 f (item_value i0 :: acc) X H1). cbn [map] in IH.
    rewrite (JSONFacts.item_value_string i0 s0 E0) in IH at 1.
    refine (eq_trans IH _). cbn [rev]. rewrite <- app_assoc. reflexivity.
Qed.

Lemma length_concat_flat (l : list Item) :
  List.length l <= String.length (String.concat "," (map compact (map item_value l))).
Proof.
  induction l as [|i [|j l] IH].
  - cbn. lia.
  - cbn [map String.concat List.length]. unfold item_value. cbn [compact map]. cbn. lia.
  - cbn [map]. rewrite JSONFacts.concat_cons, !JSONFacts.length_append.
    cbn [map List.length] in IH |- *.
    assert (1 <= String.length (compact (item_value i))) by (cbn; lia). lia.
Qed.

Lemma items_flat_head (Y : string) (i : Item) (rest : list string) :
  exists R, String.concat "," (compact (item_value i) :: rest) ++ Y = String "{" R.
Proof.
  destruct rest as [|y rest]; unfold item_value; cbn [String.concat compact map append];
    eexists; reflexivity.
Qed.

(** [parse] reads back the text [compact] writes for a list of items
    whose ids are strings. *)
Lemma parse_compact_items (l : list Item) :
  Forall (fun i => exists s, id i = JStr s) l ->
  parse (compact (JArr (map item_value l))) = Some (JArr (map item_value l)).
Proof.
  intro H. destruct H as [|i0 l H0 H]; [reflexivity|].
  unfold parse.
  set (txt := compact (JArr (map item_value (i0 :: l)))).
  assert (L : 7 + List.length l <= 2 * String.length txt + 2).
  { pose proof (length_concat_flat (i0 :: l)) as B.
    subst txt. cbn [map compact]. cbn [map List.length] in B.
    rewrite !JSONFacts.length_append.
    remember (String.length (String.concat _ _)) as C. cbn [String.length]. lia. }
  destruct (Nat.le_exists_sub _ _ L) as [f [E _]]. rewrite E.
  replace (f + (7 + List.length l)) with (S (S (5 + (List.length l + f)))) by lia.
  subst txt. clear E L.
  pose proof (elements_items_flat l H i0 f [] EmptyString H0) as EI.
  destruct (items_flat_head "]" i0 (map compact (map item_value l))) as [R ER].
  cbn [map compact append]. cbn [map] in EI.
  rewrite (JSONFacts.value_open _ _ R).
  - lazymatch type of EI with
    | ?lhs = _ =>
        match goal with
        | |- context C [elements ?a ?b ?c] => let g := context C [lhs] in change g
        end
    end.
    rewrite EI. reflexivity.
  - rewrite ER. reflexivity.
Qed.

End JSONFlat.

(** X17.  What the persistence effect stores for a list of items with
    string ids, the next start reads back as the same items in the same
    order: ids, the empty one included, texts and completed flags. *)
Theorem persist_load_roundtrip (st : State) :
  Forall (fun i => exists s, id i = JStr s) (items st) ->
  initialItems JSON.parse (saveItems JSON.compact st) =
    JArr (map item_value (items st)).
Proof.
  intro H.
  apply (load_when_read_back JSON.parse JSON.compact st
           (JSON.compact (JArr (map item_value (items st))))).
  - reflexivity.
  - cbn [JSON.compact]. discriminate.
  - now apply JSONFlat.parse_compact_items.
Qed.

(** C1, as the code has it: for items whose id is a non-empty string,
    whatever their texts.  Importing the export of a list raises no
    alert, draws no id and installs the same items in the same order.
    ([roundtrip_when_read_back] has it for every pair of [JSON]
    functions that read back what they write, and for every truthy id.) *)
Theorem export_import_roundtrip (randomId : nat -> string) (st st0 : State) (n : nat) :
  Forall (fun i => exists s, id i = JStr s /\ s <> EmptyString) (items st) ->
  importSnapshot randomId JSON.parse (exportJSON JSON.stringify st) st0 n =
    ((setItems (fun _ => items st) st0, None), n).
Proof.
  intro H. apply roundtrip_when_read_back.
  - revert H. apply Forall_impl. intros i (s & -> & N). cbn.
    destruct (String.eqb_spec s EmptyString) as [E|_]; [contradiction|reflexivity].
  - apply JSONFacts.parse_stringify_items.
    revert H. apply Forall_impl. intros i (s & E & _). now exists s.
Qed.

(** ** The handlers at work

    The properties above on sample data, with the [JSON] model and the
    [tally] id source. *)

Lemma tally_fresh : forall a b, tally a = tally b -> a = b.
Proof.
  induction a as [|a IH]; intros [|b] E; try discriminate; [reflexivity|].
  cbn in E. injection E as E. f_equal. now apply IH.
Qed.

Lemma tally_not_a (m : nat) : JStr (tally m) <> JStr "a".
Proof. destruct m; discriminate. Qed.

Lemma walkState_reachable :
  reachable_by tally JSON.parse (ids_safe tally JSON.parse) walkState 1.
Proof.
  apply (reach_step tally JSON.parse _ (Add "Walk dog") emptyState 0).
  - apply reach_empty.
  - exact I.
  - reflexivity.
Qed.

Lemma add_spec_witness :
  JS.trim " Buy milk " <> EmptyString /\
  items (fst (add tally " Buy milk " walkState 1)) =
    [mkItem (JStr "i#") "Buy milk" false; mkItem (JStr "#") "Walk dog" false] /\
  ~ In (JStr "i#") (map id (items walkState)) /\
  JS.trim "   " = EmptyString /\
  items (fst (add tally "   " walkState 1)) = items walkState.
Proof.
  assert (N : JS.trim " Buy milk " <> EmptyString) by (intro H; vm_compute in H; discriminate H).
  assert (B : JS.trim "   " = EmptyString) by reflexivity.
  pose proof (add_spec tally JSON.parse " Buy milk " walkState 1) as [_ A].
  pose proof (add_spec tally JSON.parse "   " walkState 1) as [Z _].
  destruct (A N) as (A1 & _ & _ & A4). destruct (Z B) as [Z1 _].
  split; [exact N|]. split; [exact A1|].
  split; [exact (A4 tally_fresh walkState_reachable)|].
  split; [exact B|exact Z1].
Defined.

(** After an import that brought the id the source returns next, [add]
    gives the new item the id of a former item. *)
Lemma add_draws_taken_id :
  run tally JSON.parse [ImportSnapshot payload_first_id] emptyState 0 =
    Some (firstIdState, 0) /\
  reachable tally JSON.parse firstIdState 0 /\
  items (fst (add tally "y" firstIdState 0)) =
    [mkItem (JStr "#") "y" false; mkItem (JStr "#") "x" false] /\
  In (JStr (tally 0)) (map id (items firstIdState)).
Proof.
  assert (E : run tally JSON.parse [ImportSnapshot payload_first_id] emptyState 0 =
              Some (firstIdState, 0)) by reflexivity.
  split; [exact E|]. split.
  - apply (run_reachable tally JSON.parse _ [ImportSnapshot payload_first_id] emptyState 0).
    + apply reach_empty.
    + cbn. split; exact I.
    + exact E.
  - split; [reflexivity|]. left. reflexivity.
Qed.

Lemma addBulk_spec_witness :
  List.length (bulk_lines "   ") = 0 /\
  items (fst (addBulk tally "   " walkState 1)) = items walkState /\
  bulk_lines bulk_sample = ["a"; "b"] /\
  items (fst (addBulk tally bulk_sample walkState 1)) =
    [mkItem (JStr "i#") "a" false; mkItem (JStr "ii#") "b" false;
     mkItem (JStr "#") "Walk dog" false] /\
  forall v, In v [JStr "i#"; JStr "ii#"] -> ~ In v (map id (items walkState)).
Proof.
  assert (Z : List.length (bulk_lines "   ") = 0) by reflexivity.
  pose proof (addBulk_spec tally JSON.parse "   " walkState 1)
    as (_ & _ & _ & _ & _ & _ & _ & Z1 & _).
  pose proof (addBulk_spec tally JSON.parse bulk_sample walkState 1)
    as (B1 & _ & _ & _ & _ & _ & _ & _ & _ & B2).
  split; [exact Z|]. split; [exact (Z1 Z)|]. split; [reflexivity|].
  split; [exact B1|exact (B2 tally_fresh walkState_reachable)].
Defined.

(** After an import that brought an id the source returns later,
    [addBulk] gives a new item the id of a former item. *)
Lemma addBulk_draws_taken_id :
  run tally JSON.parse [ImportSnapshot payload_second_id] emptyState 0 =
    Some (secondIdState, 0) /\
  reachable tally JSON.parse secondIdState 0 /\
  bulk_lines bulk_two = ["y"; "z"] /\
  items (fst (addBulk tally bulk_two secondIdState 0)) =
    [mkItem (JStr "#") "y" false; mkItem (JStr "i#") "z" false;
     mkItem (JStr "i#") "x" false] /\
  In (JStr (tally 1)) (map id (items secondIdState)).
Proof.
  assert (E : run tally JSON.parse [ImportSnapshot payload_second_id] emptyState 0 =
              Some (secondIdState, 0)) by reflexivity.
  split; [exact E|]. split.
  - apply (run_reachable tally JSON.parse _ [ImportSnapshot payload_second_id] emptyState 0).
    + apply reach_empty.
    + cbn. split; exact I.
    + exact E.
  - split; [reflexivity|]. split; [reflexivity|]. left. reflexivity.
Qed.

Lemma toggle_frame_witness :
  nth_error (items sampleState) 1 = Some milk /\
  nth_error (items (toggleItem "a1" sampleState)) 1 =
    Some (mkItem (JStr "a1") "Buy milk" true).
Proof.
  assert (H : nth_error (items sampleState) 1 = Some milk) by reflexivity.
  split; [exact H|].
  exact (proj1 (proj2 (proj2 (proj2 (toggle_frame "a1" sampleState)))) 1 milk H).
Defined.

Lemma edit_spec_witness :
  "a1" <> EmptyString /\ JS.trim " Buy oat milk " <> EmptyString /\
  items (edit "a1" " Buy oat milk " sampleState) =
    [dog; mkItem (JStr "a1") "Buy oat milk" false] /\
  JS.trim "  " = EmptyString /\
  items (edit "a1" "  " sampleState) = [dog].
Proof.
  assert (T : "a1" <> EmptyString) by discriminate.
  assert (N : JS.trim " Buy oat milk " <> EmptyString)
    by (intro H; vm_compute in H; discriminate H).
  assert (B : JS.trim "  " = EmptyString) by reflexivity.
  split; [exact T|]. split; [exact N|]. split.
  - exact (proj1 (proj2 (edit_spec "a1" " Buy oat milk " sampleState T) N)).
  - split; [exact B|].
    exact (proj1 (proj1 (edit_spec "a1" "  " sampleState T) B)).
Defined.

Lemma importSnapshot_spec_witness :
  JSON.parse "{" = None /\
  importSnapshot tally JSON.parse "{" sampleState 2 = ((sampleState, Some ReadError), 2) /\
  JSON.parse "{}" = Some (JObj []) /\
  importSnapshot tally JSON.parse "{}" sampleState 2 = ((sampleState, Some InvalidFile), 2) /\
  JSON.parse payload_mixed =
    Some (JArr [JObj [("id", JStr "a"); ("text", JStr "x"); ("completed", JNum 1)];
                JObj [("text", JStr "y")];
                JObj [("id", JStr "z")];
                JNum 7]) /\
  importSnapshot tally JSON.parse payload_mixed sampleState 2 =
    ((mkState [mkItem (JStr "a") "x" true; mkItem (JStr "ii#") "y" false]
        EmptyString EmptyString All None EmptyString, None), 3).
Proof.
  assert (F : JSON.parse "{" = None) by reflexivity.
  assert (O : JSON.parse "{}" = Some (JObj [])) by reflexivity.
  pose (parsed := [JObj [("id", JStr "a"); ("text", JStr "x"); ("completed", JNum 1)];
                   JObj [("text", JStr "y")]; JObj [("id", JStr "z")]; JNum 7]).
  assert (A : JSON.parse payload_mixed = Some (JArr parsed)) by reflexivity.
  split; [exact F|]. split.
  - exact (proj1 (importSnapshot_spec tally JSON.parse "{" sampleState 2) F).
  - split; [exact O|]. split.
    + exact (proj1 (proj2 (importSnapshot_spec tally JSON.parse "{}" sampleState 2))
               (JObj []) O eq_refl).
    + split; [exact A|].
      exact (proj2 (proj2 (importSnapshot_spec tally JSON.parse payload_mixed sampleState 2))
               parsed A).
Defined.

Lemma export_import_roundtrip_witness :
  Forall (fun i => exists s, id i = JStr s /\ s <> EmptyString) (items sampleState) /\
  importSnapshot tally JSON.parse (exportJSON JSON.stringify sampleState) emptyState 2 =
    ((sampleState, None), 2).
Proof.
  assert (T : Forall (fun i => exists s, id i = JStr s /\ s <> EmptyString)
                (items sampleState)).
  { repeat constructor.
    - exists "b2". split; [reflexivity|discriminate].
    - exists "a1". split; [reflexivity|discriminate]. }
  split; [exact T|].
  exact (export_import_roundtrip tally sampleState emptyState 2 T).
Defined.

(** The round trip does not give back an item whose id is the empty
    string: the import draws an id for it. *)
Lemma roundtrip_empty_id :
  importSnapshot tally JSON.parse (exportJSON JSON.stringify unnamedState) unnamedState 0 =
    ((setItems (fun _ => [mkItem (JStr "#") "a" false]) unnamedState, None), 1) /\
  importSnapshot tally JSON.parse (exportJSON JSON.stringify unnamedState) unnamedState 0 <>
    ((unnamedState, None), 0).
Proof. split; [reflexivity|discriminate]. Qed.

(** [edit] on the empty id neither removes nor rewrites the item. *)
Lemma edit_empty_id :
  In unnamed (items unnamedState) /\
  items (edit EmptyString EmptyString unnamedState) = [unnamed] /\
  items (edit EmptyString "b" unnamedState) = [unnamed].
Proof. repeat split. now left. Qed.

Lemma reachable_texts_nonempty_witness :
  reachable_by tally JSON.parse (text_safe JSON.parse)
    (mkState [mkItem (JStr "ii#") "Walk dog" false; mkItem (JStr "a") "x" true;
              mkItem (JStr "i#") "y" false]
       EmptyString EmptyString All None EmptyString) 3 /\
  texts_nonempty
    [mkItem (JStr "ii#") "Walk dog" false; mkItem (JStr "a") "x" true;
     mkItem (JStr "i#") "y" false].
Proof.
  pose (ops := [Add "Buy milk"; ImportSnapshot payload_mixed; Add " Walk dog"]).
  assert (R : reachable_by tally JSON.parse (text_safe JSON.parse)
                (mkState [mkItem (JStr "ii#") "Walk dog" false; mkItem (JStr "a") "x" true;
                          mkItem (JStr "i#") "y" false]
                   EmptyString EmptyString All None EmptyString) 3).
  { apply (run_reachable tally JSON.parse _ ops emptyState 0).
    - apply reach_empty.
    - cbn [allowed ops]. split; [exact I|]. split.
      + intros parsed H. vm_compute in H. injection H as <-.
        repeat constructor; discriminate.
      + split; [exact I|exact I].
    - reflexivity. }
  split; [exact R|].
  exact (reachable_texts_nonempty tally JSON.parse _ _ R).
Defined.

(** An import brings in an item whose text is empty. *)
Lemma import_empty_text :
  run tally JSON.parse [ImportSnapshot payload_empty_text] emptyState 0 =
    Some (mkState [mkItem (JStr "a") EmptyString false]
            EmptyString EmptyString All None EmptyString, 0) /\
  ~ (forall st n, reachable tally JSON.parse st n -> texts_nonempty (items st)).
Proof.
  assert (E : run tally JSON.parse [ImportSnapshot payload_empty_text] emptyState 0 =
              Some (mkState [mkItem (JStr "a") EmptyString false]
                      EmptyString EmptyString All None EmptyString, 0)) by reflexivity.
  split; [exact E|]. intro C.
  assert (R : reachable tally JSON.parse
                (mkState [mkItem (JStr "a") EmptyString false]
                   EmptyString EmptyString All None EmptyString) 0).
  { apply (run_reachable tally JSON.parse _ [ImportSnapshot payload_empty_text] emptyState 0).
    - apply reach_empty.
    - cbn. split; exact I.
    - exact E. }
  apply C in R. inversion R as [|? ? H _]. now apply H.
Qed.

Lemma reachable_ids_distinct_witness :
  (forall a b, tally a = tally b -> a = b) /\
  reachable_by tally JSON.parse (ids_safe tally JSON.parse)
    (mkState [mkItem (JStr "ii#") "Walk dog" false; mkItem (JStr "a") "x" true;
              mkItem (JStr "i#") "y" false]
       EmptyString EmptyString All None EmptyString) 3 /\
  ids_distinct
    [mkItem (JStr "ii#") "Walk dog" false; mkItem (JStr "a") "x" true;
     mkItem (JStr "i#") "y" false].
Proof.
  pose (ops := [Add "Buy milk"; ImportSnapshot payload_mixed; Add " Walk dog"]).
  assert (R : reachable_by tally JSON.parse (ids_safe tally JSON.parse)
                (mkState [mkItem (JStr "ii#") "Walk dog" false; mkItem (JStr "a") "x" true;
                          mkItem (JStr "i#") "y" false]
                   EmptyString EmptyString All None EmptyString) 3).
  { apply (run_reachable tally JSON.parse _ ops emptyState 0).
    - apply reach_empty.
    - cbn [allowed ops]. split; [exact I|]. split.
      + intros parsed H. vm_compute in H. injection H as <-. split.
        * repeat constructor. intros [].
        * intros m _ [C|[]]. symmetry in C. exact (tally_not_a m C).
      + split; [exact I|exact I].
    - reflexivity. }
  split; [exact tally_fresh|]. split; [exact R|].
  exact (reachable_ids_distinct tally JSON.parse tally_fresh _ _ R).
Defined.

(** An import brings in two items with the same id. *)
Lemma import_same_id :
  run tally JSON.parse [ImportSnapshot payload_same_id] emptyState 0 =
    Some (mkState [mkItem (JStr "a") "x" false; mkItem (JStr "a") "y" false]
            EmptyString EmptyString All None EmptyString, 0) /\
  ~ (forall st n, reachable tally JSON.parse st n -> ids_distinct (items st)).
Proof.
  assert (E : run tally JSON.parse [ImportSnapshot payload_same_id] emptyState 0 =
              Some (mkState [mkItem (JStr "a") "x" false; mkItem (JStr "a") "y" false]
                      EmptyString EmptyString All None EmptyString, 0)) by reflexivity.
  split; [exact E|]. intro C.
  assert (R : reachable tally JSON.parse
                (mkState [mkItem (JStr "a") "x" false; mkItem (JStr "a") "y" false]
                   EmptyString EmptyString All None EmptyString) 0).
  { apply (run_reachable tally JSON.parse _ [ImportSnapshot payload_same_id] emptyState 0).
    - apply reach_empty.
    - cbn. split; exact I.
    - exact E. }
  apply C in R. inversion R as [|? ? H _]. apply H. now left.
Qed.

(** C9.  A stored text that parses to something other than an array of
    items becomes the component's [items] as it is: here an object, where
    the empty list was called for. *)
Theorem initialItems_keeps_object :
  initialItems JSON.parse (Stored "{}") = JObj [] /\
  initialItems JSON.parse (Stored "{}") <> JArr [].
Proof. split; [reflexivity|discriminate]. Qed.

(** ** The remaining handlers at work *)

Lemma tally_nonempty (k : nat) : tally k <> EmptyString.
Proof. destruct k; discriminate. Qed.

Lemma absent_id_noop_witness :
  Forall (fun i => id i <> JStr "zz") (items sampleState) /\
  removeItem "zz" sampleState = sampleState /\
  toggleItem "zz" sampleState = sampleState.
Proof.
  assert (A : Forall (fun i => id i <> JStr "zz") (items sampleState))
    by (repeat constructor; discriminate).
  destruct (absent_id_noop "zz" sampleState A) as (R & T & _).
  split; [exact A|]. split; [exact R|exact T].
Defined.

Lemma reorder_moves_witness :
  0 < List.length [dog; milk; unnamed] /\ 2 < List.length [dog; milk; unnamed] /\
  exists l',
    reorder_items 0 2 [dog; milk; unnamed] = Some l' /\
    nth_error l' 2 = Some dog /\ without 2 l' = [milk; unnamed].
Proof.
  assert (A : 0 < List.length [dog; milk; unnamed]) by (cbn; lia).
  assert (B : 2 < List.length [dog; milk; unnamed]) by (cbn; lia).
  destruct (reorder_moves 0 2 [dog; milk; unnamed] A B) as (l' & R & N & W & _).
  split; [exact A|]. split; [exact B|]. exists l'.
  split; [exact R|]. split; [exact N|exact W].
Defined.

Lemma reorder_undo_witness :
  0 < List.length [dog; milk; unnamed] /\ 2 < List.length [dog; milk; unnamed] /\
  reorder_items 0 2 [dog; milk; unnamed] = Some [milk; unnamed; dog] /\
  reorder_items 2 0 [milk; unnamed; dog] = Some [dog; milk; unnamed].
Proof.
  assert (A : 0 < List.length [dog; milk; unnamed]) by (cbn; lia).
  assert (B : 2 < List.length [dog; milk; unnamed]) by (cbn; lia).
  assert (R : reorder_items 0 2 [dog; milk; unnamed] = Some [milk; unnamed; dog])
    by reflexivity.
  destruct (reorder_undo 0 2 [dog; milk; unnamed] A B) as [U _].
  split; [exact A|]. split; [exact B|]. split; [exact R|].
  exact (U [milk; unnamed; dog] R).
Defined.

Lemma toggle_counts_witness :
  ids_distinct (items sampleState) /\ In milk (items sampleState) /\
  id milk = JStr "a1" /\ completed milk = false /\
  pendingCount sampleState = 1 /\
  pendingCount (toggleItem "a1" sampleState) = 0.
Proof.
  assert (D : ids_distinct (items sampleState)).
  { unfold ids_distinct. cbn. repeat constructor; cbn; intuition discriminate. }
  assert (I : In milk (items sampleState)) by (right; left; reflexivity).
  destruct (toggle_counts "a1" sampleState milk D I eq_refl) as (_ & P & _).
  split; [exact D|]. split; [exact I|]. split; [reflexivity|]. split; [reflexivity|].
  split; [reflexivity|].
  exact (eq_add_S _ 0 (P eq_refl)).
Defined.

Lemma import_counts_witness :
  JSON.parse payload_mixed =
    Some (JArr [JObj [("id", JStr "a"); ("text", JStr "x"); ("completed", JNum 1)];
                JObj [("text", JStr "y")];
                JObj [("id", JStr "z")];
                JNum 7]) /\
  map text (items (fst (fst (importSnapshot tally JSON.parse payload_mixed sampleState 2))))
    = ["x"; "y"] /\
  snd (importSnapshot tally JSON.parse payload_mixed sampleState 2) = 3.
Proof.
  pose (parsed := [JObj [("id", JStr "a"); ("text", JStr "x"); ("completed", JNum 1)];
                   JObj [("text", JStr "y")]; JObj [("id", JStr "z")]; JNum 7]).
  assert (P : JSON.parse payload_mixed = Some (JArr parsed)) by reflexivity.
  destruct (import_counts tally JSON.parse payload_mixed parsed sampleState 2 P)
    as (_ & _ & T & _ & N & _).
  split; [exact P|]. split; [exact T|exact N].
Defined.

Lemma sample_run_reachable :
  reachable tally JSON.parse
    (mkState [mkItem (JStr "ii#") "Walk dog" false; mkItem (JStr "a") "x" true;
              mkItem (JStr "i#") "y" false]
       EmptyString EmptyString All None EmptyString) 3.
Proof.
  apply (run_reachable tally JSON.parse _
           [Add "Buy milk"; ImportSnapshot payload_mixed; Add " Walk dog"] emptyState 0).
  - apply reach_empty.
  - cbn. repeat split.
  - reflexivity.
Qed.

Lemma reachable_ids_usable_witness :
  (forall k, tally k <> EmptyString) /\
  ids_usable [mkItem (JStr "ii#") "Walk dog" false; mkItem (JStr "a") "x" true;
              mkItem (JStr "i#") "y" false].
Proof.
  split; [exact tally_nonempty|].
  exact (proj1 (reachable_ids_usable tally JSON.parse JSON.stringify _ _
                  tally_nonempty sample_run_reachable)).
Defined.

Lemma reachable_texts_trimmed_witness :
  reachable_by tally JSON.parse (trim_safe JSON.parse)
    (mkState [mkItem (JStr "ii#") "Walk dog" false; mkItem (JStr "a") "x" true;
              mkItem (JStr "i#") "y" false]
       EmptyString EmptyString All None EmptyString) 3 /\
  texts_trimmed [mkItem (JStr "ii#") "Walk dog" false; mkItem (JStr "a") "x" true;
                 mkItem (JStr "i#") "y" false].
Proof.
  assert (R : reachable_by tally JSON.parse (trim_safe JSON.parse)
                (mkState [mkItem (JStr "ii#") "Walk dog" false; mkItem (JStr "a") "x" true;
                          mkItem (JStr "i#") "y" false]
                   EmptyString EmptyString All None EmptyString) 3).
  { apply (run_reachable tally JSON.parse _
             [Add "Buy milk"; ImportSnapshot payload_mixed; Add " Walk dog"] emptyState 0).
    - apply reach_empty.
    - cbn [allowed]. split; [exact I|]. split.
      + intros parsed H. vm_compute in H. injection H as <-.
        repeat constructor.
      + split; [exact I|exact I].
    - reflexivity. }
  split; [exact R|].
  exact (reachable_texts_trimmed tally JSON.parse _ _ R).
Defined.

Lemma addBulk_single_line_witness :
  JS.has_lf " Buy milk " = false /\
  items (fst (addBulk tally " Buy milk " walkState 1)) =
    [mkItem (JStr "i#") "Buy milk" false; mkItem (JStr "#") "Walk dog" false].
Proof.
  assert (H : JS.has_lf " Buy milk " = false) by reflexivity.
  split; [exact H|].
  exact (eq_trans (proj1 (addBulk_single_line tally " Buy milk " walkState 1 H)) eq_refl).
Defined.

Lemma startEdit_spec_witness :
  id milk = JStr "a1" /\ "a1" <> EmptyString /\
  exists st1,
    startEdit milk sampleState = Some st1 /\
    editingText st1 = "Buy milk" /\
    items (saveEdit st1) = [dog; milk].
Proof.
  assert (N : "a1" <> EmptyString) by discriminate.
  destruct (startEdit_spec milk "a1" sampleState eq_refl N)
    as (st1 & S & _ & T & _ & _ & K & _).
  split; [reflexivity|]. split; [exact N|]. exists st1.
  split; [exact S|]. split; [exact T|].
  apply K.
  - unfold ids_distinct. cbn. repeat constructor; cbn; intuition discriminate.
  - right; left; reflexivity.
  - reflexivity.
  - discriminate.
Defined.

Lemma edit_frame_witness :
  "a1" <> EmptyString /\ JS.trim " Buy oat milk " <> EmptyString /\
  map id (items (edit "a1" " Buy oat milk " sampleState)) = [JStr "b2"; JStr "a1"] /\
  nth_error (items (edit "a1" " Buy oat milk " sampleState)) 0 = Some dog.
Proof.
  assert (T : "a1" <> EmptyString) by discriminate.
  assert (N : JS.trim " Buy oat milk " <> EmptyString)
    by (intro H; vm_compute in H; discriminate H).
  destruct (edit_frame "a1" " Buy oat milk " sampleState T N) as (_ & I & _ & K & _).
  split; [exact T|]. split; [exact N|]. split; [exact I|].
  apply (K 0 dog); [reflexivity|discriminate].
Defined.

Lemma add_then_remove_witness :
  (forall a b, tally a = tally b -> a = b) /\
  reachable_by tally JSON.parse (ids_safe tally JSON.parse) walkState 1 /\
  items (removeItem "i#" (fst (add tally " Buy milk " walkState 1))) = items walkState.
Proof.
  split; [exact tally_fresh|]. split; [exact walkState_reachable|].
  exact (proj1 (add_then_remove tally JSON.parse " Buy milk " walkState 1
                  tally_fresh walkState_reachable)).
Defined.

Lemma initialItems_defaults_witness :
  JSON.parse "{" = None /\
  initialItems JSON.parse (Stored "{") = JArr [] /\
  initialItems JSON.parse Absent = JArr [].
Proof.
  assert (P : JSON.parse "{" = None) by reflexivity.
  split; [exact P|]. split.
  - apply initialItems_defaults. right; right; right. exists "{". now split.
  - apply initialItems_defaults. right; left. reflexivity.
Defined.

Lemma persist_load_roundtrip_witness :
  Forall (fun i => exists s, id i = JStr s) (items unnamedState) /\
  initialItems JSON.parse (saveItems JSON.compact unnamedState) =
    JArr [JObj [("id", JStr EmptyString); ("text", JStr "a"); ("completed", JBool false)]].
Proof.
  assert (H : Forall (fun i => exists s, id i = JStr s) (items unnamedState)).
  { repeat constructor. now exists EmptyString. }
  split; [exact H|].
  exact (persist_load_roundtrip unnamedState H).
Defined.
